(** * PGrav: assembly of the linear system for 3D gravity inversion

    A shallow embedding of [fatiando/geoinv/pgrav.py] (class [PGrav]):
    the constructor, the sensitivity matrix, the first-derivative
    (smoothness) matrix, the data vector and covariance, the depth
    weights, and the data that the plotting methods compute.

    Conventions of the embedding.
    - A Python [float] is an IEEE-754 binary64 number: Rocq's primitive
      [float], whose operations round exactly as the hardware does.
    - A Python [int] is a [Z]; loop counters and array indices, which the
      code only ever counts upwards from zero, are [nat]. Dividing a float
      by an int converts the int first, which raises [OverflowError] when
      it is too large for a float.
    - A 1-D numpy array is a [list float], a 2-D array a list of rows.
    - A raised exception is the [Raise] branch of [result]; statements are
      sequenced with the bind of that monad, so the first exception wins,
      as in Python.
    - The data containers ([fatiando.data.gravity]), the prism kernels
      ([fatiando.directmodels.gravity.prism]) and the C library's [pow] are
      not part of this file's source: a channel object is a record of what
      [PGrav] reads from it, the kernels and [pow] are section variables. *)

From Stdlib Require Import ZArith List Lia Bool Arith.
From Stdlib Require Import Floats.PrimFloat Floats.SpecFloat Floats.FloatOps.
Import ListNotations.

(** ** Exceptions *)

Inductive exn : Set :=
| RuntimeError
| ZeroDivisionError
| ValueError
| IndexError
| OverflowError.

Inductive result (A : Type) : Type :=
| Ok (a : A)
| Raise (e : exn).

Arguments Ok {A} a.
Arguments Raise {A} e.

Definition bind {A B : Type} (r : result A) (k : A -> result B) : result B :=
  match r with
  | Ok a => k a
  | Raise e => Raise e
  end.

Notation "x <- e ;; k" := (bind e (fun x => k))
  (at level 61, e at next level, right associativity).

(** [for x in xs: body] threading the loop state. *)
Fixpoint for_each {A S : Type} (xs : list A) (body : A -> S -> result S)
  (s : S) : result S :=
  match xs with
  | [] => Ok s
  | x :: xs' => s' <- body x s ;; for_each xs' body s'
  end.

(** [xrange(n)] and [range(n)]: empty when [n <= 0]. *)
Definition xrange (n : Z) : list nat := seq 0 (Z.to_nat n).

(** ** Floats *)

(** The float nearest to an integer, ties to even, and infinite past the
    largest float: the C cast of an integer to [double]. *)
Definition nearest_float (n : Z) : float :=
  SF2Prim (binary_normalize prec emax n 0 false).

(** Conversion of a Python [int] to [float]: an int too large for a
    float is an [OverflowError]. *)
Definition float_of_Z (n : Z) : result float :=
  let f := nearest_float n in
  if is_infinity f then Raise OverflowError else Ok f.

Definition float_of_nat (n : nat) : float := nearest_float (Z.of_nat n).

(** Python's [a / b] on floats. *)
Definition py_div (a b : float) : result float :=
  if PrimFloat.eqb b 0%float then Raise ZeroDivisionError
  else Ok (a / b)%float.

(** Python's [a / n] for a float [a] and an int [n]: the int is converted
    first. *)
Definition py_div_int (a : float) (n : Z) : result float :=
  b <- float_of_Z n ;;
  py_div a b.

(** [math.sqrt]: a domain error below zero. *)
Definition math_sqrt (a : float) : result float :=
  if PrimFloat.ltb a 0%float then Raise ValueError
  else Ok (PrimFloat.sqrt a).

(** The C [ceil] followed by the conversion to an array length, as in
    numpy's [_arange_safe_ceil_to_intp]: a NaN is a [ValueError]; a value
    outside [(double)NPY_MIN_INTP, (double)NPY_MAX_INTP], which is
    [-2^63, 2^63] since [2^63 - 1] is no double, is an [OverflowError];
    the cast of [2^63] itself to [npy_intp] gives [-2^63] (x86-64). *)
Definition min_intp : Z := - 2 ^ 63.
Definition max_intp : Z := 2 ^ 63 - 1.

Definition ceil_to_intp (q : float) : result Z :=
  match Prim2SF q with
  | S754_nan => Raise ValueError
  | S754_infinity _ => Raise OverflowError
  | S754_zero _ => Ok 0%Z
  | S754_finite s m e =>
      let n := if s then Z.neg m else Z.pos m in
      let c := if (0 <=? e)%Z then (n * 2 ^ e)%Z
               else (- ((- n) / 2 ^ (- e)))%Z in
      if ((min_intp <=? c) && (c <=? max_intp + 1))%Z then
        Ok (if (c =? max_intp + 1)%Z then min_intp else c)
      else Raise OverflowError
  end.

(** ** numpy *)

Definition vector := list float.
Definition matrix := list (list float).

(** [numpy.arange(start, stop, step, 'float')]: the length is
    [ceil((stop - start)/step)], and the array is empty when that is not
    positive; the first two entries are [start] and [start + step], the
    others [start + i*delta] with [delta = (start + step) - start]. *)
Definition arange (start stop step : float) : result vector :=
  q <- py_div (stop - start)%float step ;;
  len <- ceil_to_intp q ;;
  let next := (start + step)%float in
  let delta := (next - start)%float in
  Ok (map (fun i => match i with
                    | O => start
                    | S O => next
                    | _ => (start + float_of_nat i * delta)%float
                    end)
        (seq 0 (Z.to_nat len))).

(** [numpy.zeros((r, c))] and [numpy.identity(n)]. *)
Definition zeros (r c : Z) : result matrix :=
  if ((r <? 0) || (c <? 0))%Z then Raise ValueError
  else Ok (repeat (repeat 0%float (Z.to_nat c)) (Z.to_nat r)).

Definition diag_row (n i : nat) (v : float) : list float :=
  map (fun c => if c =? i then v else 0%float) (seq 0 n).

Definition identity (n : Z) : result matrix :=
  if (n <? 0)%Z then Raise ValueError
  else Ok (map (fun i => diag_row (Z.to_nat n) i 1%float)
             (seq 0 (Z.to_nat n))).

(** [numpy.diag(v)] of a 1-D array. *)
Definition diag (v : vector) : matrix :=
  map (fun iv => diag_row (length v) (fst iv) (snd iv))
    (combine (seq 0 (length v)) v).

Fixpoint list_set {A : Type} (i : nat) (x : A) (l : list A) : list A :=
  match l, i with
  | [], _ => []
  | _ :: t, O => x :: t
  | h :: t, S i' => h :: list_set i' x t
  end.

(** [m[r][c] = v]: an index past the end is an [IndexError]. *)
Definition setitem2 (m : matrix) (r c : nat) (v : float) : result matrix :=
  match nth_error m r with
  | None => Raise IndexError
  | Some row =>
      if c <? length row then Ok (list_set r (list_set c v row) m)
      else Raise IndexError
  end.

(** [a.max()]: a NaN wins; the empty array is a [ValueError]. *)
Definition fmax (a b : float) : float :=
  if is_nan a then a
  else if is_nan b then b
  else if PrimFloat.ltb a b then b else a.

Definition array_max (m : matrix) : result float :=
  match concat m with
  | [] => Raise ValueError
  | x :: xs => Ok (fold_left fmax xs x)
  end.

(** ** The data model *)

(** The seven field components, in the order of the constructor's
    arguments. *)
Inductive Field : Set := Gz | Gxx | Gxy | Gxz | Gyy | Gyz | Gzz.

Definition point : Type := float * float * float.

(** What [PGrav] reads from a data object: its truth value ([if obj:]),
    [len(obj)], [obj.loc(i)], [obj.array] and [obj.std]. *)
Record Channel : Type := {
  truth : bool;
  len : nat;
  loc : nat -> point;
  array : vector;
  std : vector
}.

(** A constructor argument: [None] or a data object. *)
Definition truthy (c : option Channel) : bool :=
  match c with
  | None => false
  | Some ch => truth ch
  end.

Record PGrav : Type := {
  _gz : option Channel;
  _gxx : option Channel;
  _gxy : option Channel;
  _gxz : option Channel;
  _gyy : option Channel;
  _gyz : option Channel;
  _gzz : option Channel;
  _mod_x1 : float;
  _mod_x2 : float;
  _mod_y1 : float;
  _mod_y2 : float;
  _mod_z1 : float;
  _mod_z2 : float;
  _nx : Z;
  _ny : Z;
  _nz : Z
}.

(** [PGrav.__init__]. *)
Definition __init__ (x1 x2 y1 y2 z1 z2 : float) (nx ny nz : Z)
  (gz gxx gxy gxz gyy gyz gzz : option Channel) : result PGrav :=
  if negb (truthy gz || truthy gxx || truthy gxy || truthy gxz
           || truthy gyy || truthy gyz || truthy gzz)
  then Raise RuntimeError
  else Ok {| _gz := gz; _gxx := gxx; _gxy := gxy; _gxz := gxz;
             _gyy := gyy; _gyz := gyz; _gzz := gzz;
             _mod_x1 := x1; _mod_x2 := x2;
             _mod_y1 := y1; _mod_y2 := y2;
             _mod_z1 := z1; _mod_z2 := z2;
             _nx := nx; _ny := ny; _nz := nz |}.

(** The attribute of [self] that holds a component's data. *)
Definition channel (self : PGrav) (f : Field) : option Channel :=
  match f with
  | Gz => _gz self
  | Gxx => _gxx self
  | Gxy => _gxy self
  | Gxz => _gxz self
  | Gyy => _gyy self
  | Gyz => _gyz self
  | Gzz => _gzz self
  end.

(** ** The assemblers *)

Section Assembly.

(** [prism_gravity.gz], [.gxx], ...: the kernel of a component, called as
    [kernel f dens x1 x2 y1 y2 z1 z2 xp yp zp]. *)
Variable prism_gravity :
  Field -> float -> float -> float -> float -> float -> float -> float ->
  float -> float -> float -> float.

(** Python's [a ** b] on floats (the C library's [pow], which may raise
    [OverflowError], [ValueError] or [ZeroDivisionError]). *)
Variable float_pow : float -> float -> result float.

(** The three inner loops of [_build_sensibility]: one row of the
    matrix, for the observation point [p]. *)
Definition line (f : Field) (dx dy dz : float)
  (prism_xs prism_ys prism_zs : vector) (p : point) : list float :=
  let '(xp, yp, zp) := p in
  flat_map (fun z =>
    flat_map (fun y =>
      map (fun x =>
             prism_gravity f 1%float x (x + dx)%float y (y + dy)%float
               z (z + dz)%float xp yp zp)
        prism_xs)
      prism_ys)
    prism_zs.

(** One [if self._g:] block of [_build_sensibility]. *)
Definition sens_block (f : Field) (c : option Channel) (dx dy dz : float)
  (prism_xs prism_ys prism_zs : vector) (sensibility : matrix) : matrix :=
  match c with
  | Some ch =>
      if truth ch then
        sensibility ++
          map (fun i => line f dx dy dz prism_xs prism_ys prism_zs
                          (loc ch i))
            (seq 0 (len ch))
      else sensibility
  | None => sensibility
  end.

(** The list [sensibility] just before [numpy.array] is applied. *)
Definition sens_rows (self : PGrav) (dx dy dz : float)
  (prism_xs prism_ys prism_zs : vector) : matrix :=
  let b f s := sens_block f (channel self f) dx dy dz
                 prism_xs prism_ys prism_zs s in
  b Gzz (b Gyz (b Gyy (b Gxz (b Gxy (b Gxx (b Gz [])))))).

(** [PGrav._build_sensibility]. The log line reads [shape[1]], which an
    array built from the empty list does not have. *)
Definition _build_sensibility (self : PGrav) : result matrix :=
  dx <- py_div_int (_mod_x2 self - _mod_x1 self)%float (_nx self) ;;
  dy <- py_div_int (_mod_y2 self - _mod_y1 self)%float (_ny self) ;;
  dz <- py_div_int (_mod_z2 self - _mod_z1 self)%float (_nz self) ;;
  prism_xs <- arange (_mod_x1 self) (_mod_x2 self) dx ;;
  prism_ys <- arange (_mod_y1 self) (_mod_y2 self) dy ;;
  prism_zs <- arange (_mod_z1 self) (_mod_z2 self) dz ;;
  match sens_rows self dx dy dz prism_xs prism_ys prism_zs with
  | [] => Raise IndexError
  | sensibility => Ok sensibility
  end.

(** One [if self._g: data = numpy.append(data, self._g.<attr>)]. *)
Definition append_block (attr : Channel -> vector) (c : option Channel)
  (data : vector) : vector :=
  match c with
  | Some ch => if truth ch then data ++ attr ch else data
  | None => data
  end.

Definition stack (attr : Channel -> vector) (self : PGrav) : vector :=
  let b f d := append_block attr (channel self f) d in
  b Gzz (b Gyz (b Gyy (b Gxz (b Gxy (b Gxx (b Gz [])))))).

(** [PGrav._get_data_array]. *)
Definition _get_data_array (self : PGrav) : vector := stack array self.

(** [PGrav._get_data_cov]: [numpy.diag(stddev**2)]. *)
Definition _get_data_cov (self : PGrav) : matrix :=
  let stddev := stack std self in
  diag (map (fun s => (s * s)%float) stddev).

(** The state of the loops of [_build_first_deriv]. The two counters
    start at zero and are only incremented. *)
Record fd_state : Type := {
  first_deriv : matrix;
  deriv_i : nat;
  param_i : nat
}.

(** The body shared by the three innermost loops: the two assignments
    and the two increments. *)
Definition fd_emit (stride : nat) (s : fd_state) : result fd_state :=
  m1 <- setitem2 (first_deriv s) (deriv_i s) (param_i s) 1%float ;;
  m2 <- setitem2 m1 (deriv_i s) (param_i s + stride) (-1)%float ;;
  Ok {| first_deriv := m2;
        deriv_i := deriv_i s + 1;
        param_i := param_i s + 1 |}.

(** [param_i += n]. *)
Definition fd_skip (n : nat) (s : fd_state) : result fd_state :=
  Ok {| first_deriv := first_deriv s;
        deriv_i := deriv_i s;
        param_i := param_i s + n |}.

(** [param_i = 0]. *)
Definition fd_rewind (s : fd_state) : fd_state :=
  {| first_deriv := first_deriv s; deriv_i := deriv_i s; param_i := 0 |}.

Definition fd_x (nx ny nz : Z) (s : fd_state) : result fd_state :=
  for_each (xrange nz) (fun _ s =>
    for_each (xrange ny) (fun _ s =>
      s' <- for_each (xrange (nx - 1)) (fun _ s => fd_emit 1 s) s ;;
      fd_skip 1 s') s) s.

Definition fd_y (nx ny nz : Z) (s : fd_state) : result fd_state :=
  for_each (xrange nz) (fun _ s =>
    s' <- for_each (xrange (ny - 1)) (fun _ s =>
            for_each (xrange nx) (fun _ s => fd_emit (Z.to_nat nx) s) s) s ;;
    fd_skip (Z.to_nat nx) s') s.

Definition fd_z (nx ny nz : Z) (s : fd_state) : result fd_state :=
  for_each (xrange (nz - 1)) (fun _ s =>
    for_each (xrange ny) (fun _ s =>
      for_each (xrange nx) (fun _ s =>
        fd_emit (Z.to_nat (nx * ny)) s) s) s) s.

(** [PGrav._build_first_deriv]. *)
Definition _build_first_deriv (self : PGrav) : result matrix :=
  let nx := _nx self in
  let ny := _ny self in
  let nz := _nz self in
  let deriv_num :=
    ((nx - 1) * ny * nz + (ny - 1) * nx * nz + (nz - 1) * nx * ny)%Z in
  let param_num := (nx * ny * nz)%Z in
  m <- zeros deriv_num param_num ;;
  sx <- fd_x nx ny nz {| first_deriv := m; deriv_i := 0; param_i := 0 |} ;;
  sy <- fd_y nx ny nz (fd_rewind sx) ;;
  sz <- fd_z nx ny nz (fd_rewind sy) ;;
  Ok (first_deriv sz).

(** The body of the inner loop of [depth_weights]; the right-hand side
    is evaluated before the subscript. *)
Definition dw_body (depth dz z0 power : float) (wl : matrix * nat)
  : result (matrix * nat) :=
  let '(weight, l) := wl in
  r <- math_sqrt (depth + 0.5 * dz + z0)%float ;;
  p <- float_pow r power ;;
  v <- py_div 1%float p ;;
  weight' <- setitem2 weight l l v ;;
  Ok (weight', l + 1).

(** [PGrav.depth_weights]. *)
Definition depth_weights (self : PGrav) (z0 power : float)
  : result matrix :=
  weight <- identity (_nx self * _ny self * _nz self)%Z ;;
  dz <- py_div_int (_mod_z2 self - _mod_z1 self)%float (_nz self) ;;
  depths <- arange (_mod_z1 self) (_mod_z2 self) dz ;;
  wl <- for_each depths (fun depth wl =>
          for_each (xrange (_ny self * _nx self)) (fun _ wl =>
            dw_body depth dz z0 power wl) wl) (weight, 0) ;;
  mx <- array_max (fst wl) ;;
  Ok (map (map (fun w => (w / mx)%float)) (fst wl)).

End Assembly.

(** ** Vocabulary of the statements *)

(** The declared order of the components. *)
Definition fields : list Field := [Gz; Gxx; Gxy; Gxz; Gyy; Gyz; Gzz].

(** What one argument contributes to the present components. *)
Definition chosen (f : Field) (c : option Channel) : list (Field * Channel) :=
  match c with
  | Some ch => if truth ch then [(f, ch)] else []
  | None => []
  end.

(** The components whose data object is truthy, in declared order. *)
Definition present (self : PGrav) : list (Field * Channel) :=
  flat_map (fun f => chosen f (channel self f)) fields.

(** The (component, observation) pair of every row, in row order. *)
Definition observations (self : PGrav) : list (Field * nat) :=
  flat_map (fun fc => map (fun i => (fst fc, i)) (seq 0 (len (snd fc))))
    (present self).

(** A count summed over the present components. *)
Definition total (count : Channel -> nat) (self : PGrav) : nat :=
  list_sum (map (fun fc => count (snd fc)) (present self)).

(** An argument seen through its truth value: a falsy object becomes
    [None]. *)
Definition absent_if_falsy (c : option Channel) : option Channel :=
  if truthy c then c else None.

Definition without_falsy (self : PGrav) : PGrav :=
  {| _gz := absent_if_falsy (_gz self);
     _gxx := absent_if_falsy (_gxx self);
     _gxy := absent_if_falsy (_gxy self);
     _gxz := absent_if_falsy (_gxz self);
     _gyy := absent_if_falsy (_gyy self);
     _gyz := absent_if_falsy (_gyz self);
     _gzz := absent_if_falsy (_gzz self);
     _mod_x1 := _mod_x1 self; _mod_x2 := _mod_x2 self;
     _mod_y1 := _mod_y1 self; _mod_y2 := _mod_y2 self;
     _mod_z1 := _mod_z1 self; _mod_z2 := _mod_z2 self;
     _nx := _nx self; _ny := _ny self; _nz := _nz self |}.

(** Cell sizes and prism origins as [_build_sensibility] computes them. *)
Record Prisms : Type := {
  dx : float; dy : float; dz : float;
  prism_xs : vector; prism_ys : vector; prism_zs : vector
}.

Definition prisms (self : PGrav) : result Prisms :=
  dx <- py_div_int (_mod_x2 self - _mod_x1 self)%float (_nx self) ;;
  dy <- py_div_int (_mod_y2 self - _mod_y1 self)%float (_ny self) ;;
  dz <- py_div_int (_mod_z2 self - _mod_z1 self)%float (_nz self) ;;
  xs <- arange (_mod_x1 self) (_mod_x2 self) dx ;;
  ys <- arange (_mod_y1 self) (_mod_y2 self) dy ;;
  zs <- arange (_mod_z1 self) (_mod_z2 self) dz ;;
  Ok {| dx := dx; dy := dy; dz := dz;
        prism_xs := xs; prism_ys := ys; prism_zs := zs |}.

(** The rows a present component contributes to the sensitivity matrix. *)
Definition rows_of
  (kernel : Field -> float -> float -> float -> float -> float -> float ->
            float -> float -> float -> float -> float)
  (g : Prisms) (fc : Field * Channel) : matrix :=
  map (fun i => line kernel (fst fc) (dx g) (dy g) (dz g)
                  (prism_xs g) (prism_ys g) (prism_zs g) (loc (snd fc) i))
    (seq 0 (len (snd fc))).

(** The flattened parameter index of the prism [(i, j, k)]. *)
Definition index (nx ny i j k : nat) : nat := k * nx * ny + j * nx + i.

(** A row of [n] entries: [+1] in column [p], [-1] in column [q], zero
    elsewhere. *)
Definition unit_row (n p q : nat) : list float :=
  map (fun c => if c =? p then 1%float
                else if c =? q then (-1)%float else 0%float)
    (seq 0 n).

Definition row_sum (row : list float) : float :=
  fold_left PrimFloat.add row 0%float.

(** The three blocks of difference rows of an [nx * ny * nz] grid. *)
Definition x_rows (nx ny nz : nat) : matrix :=
  flat_map (fun k => flat_map (fun j => map (fun i =>
    unit_row (nx * ny * nz) (index nx ny i j k) (index nx ny (i + 1) j k))
    (seq 0 (nx - 1))) (seq 0 ny)) (seq 0 nz).

Definition y_rows (nx ny nz : nat) : matrix :=
  flat_map (fun k => flat_map (fun j => map (fun i =>
    unit_row (nx * ny * nz) (index nx ny i j k) (index nx ny i (j + 1) k))
    (seq 0 nx)) (seq 0 (ny - 1))) (seq 0 nz).

Definition z_rows (nx ny nz : nat) : matrix :=
  flat_map (fun k => flat_map (fun j => map (fun i =>
    unit_row (nx * ny * nz) (index nx ny i j k) (index nx ny i j (k + 1)))
    (seq 0 nx)) (seq 0 ny)) (seq 0 (nz - 1)).

(** A row of zeros, as [numpy.zeros] makes them. *)
Definition zrow (P : nat) : list float := repeat 0%float P.

(** The number of entries of a row equal to [v]. *)
Definition occurrences (v : float) (row : list float) : nat :=
  length (filter (PrimFloat.eqb v) row).

(** The invariant of the loops of [_build_first_deriv]: the rows written
    so far, followed by [m] rows still zero; [deriv_i] points at the first
    of these. *)
Definition fd_inv (P : nat) (done : matrix) (m : nat) (s : fd_state) : Prop :=
  first_deriv s = done ++ repeat (zrow P) m /\ deriv_i s = length done.

(** A piece of code that, started with [param_i = p] satisfying [pre],
    writes the rows [rows p] and advances [param_i] by [adv]. *)
Definition emits (P : nat) (body : fd_state -> result fd_state)
  (rows : nat -> matrix) (adv : nat) (pre : nat -> Prop) : Prop :=
  forall done m s,
    fd_inv P done m s -> pre (param_i s) ->
    length (rows (param_i s)) <= m ->
    exists s', body s = Ok s' /\
      fd_inv P (done ++ rows (param_i s))
        (m - length (rows (param_i s))) s' /\
      param_i s' = param_i s + adv.

(** The rows written by [n] rounds of a loop whose body writes [rows]. *)
Definition loop_rows (rows : nat -> matrix) (adv n p : nat) : matrix :=
  flat_map (fun t => rows (p + t * adv)) (seq 0 n).

(** ** Sample inputs *)

(** One observation at [(0.5, 0.5, -1)], value 5, uncertainty 0.5. *)
Definition one_obs : Channel :=
  {| truth := true; len := 1;
     loc := fun _ => (0.5, 0.5, -1)%float;
     array := [5%float]; std := [0.5%float] |}.

(** Two locations but a single value. *)
Definition ragged : Channel :=
  {| truth := true; len := 2;
     loc := fun _ => (0.5, 0.5, -1)%float;
     array := [5%float]; std := [0.5%float; 0.5%float] |}.

(** A data object that holds nothing and is falsy. *)
Definition hollow : Channel :=
  {| truth := false; len := 0;
     loc := fun _ => (0, 0, 0)%float;
     array := []; std := [] |}.

(** A falsy data object that nevertheless carries data. *)
Definition muted : Channel :=
  {| truth := false; len := 1;
     loc := fun _ => (0.5, 0.5, -1)%float;
     array := [5%float]; std := [0.5%float] |}.

(** [PGrav(x1, x2, y1, y2, z1, z2, nx, ny, nz, gz=c)] once constructed. *)
Definition gz_only (x1 x2 y1 y2 z1 z2 : float) (nx ny nz : Z)
  (c : Channel) : PGrav :=
  {| _gz := Some c; _gxx := None; _gxy := None; _gxz := None;
     _gyy := None; _gyz := None; _gzz := None;
     _mod_x1 := x1; _mod_x2 := x2; _mod_y1 := y1; _mod_y2 := y2;
     _mod_z1 := z1; _mod_z2 := z2; _nx := nx; _ny := ny; _nz := nz |}.

(** The unit cube cut into 49 cells along one axis. *)
Definition cube_49x : PGrav := gz_only 0 1 0 1 0 1 49 1 1 one_obs.
Definition cube_49x2 : PGrav := gz_only 0 1 0 1 0 1 49 2 1 one_obs.
Definition cube_49z : PGrav := gz_only 0 1 0 1 0 1 1 1 49 one_obs.

(** The cube [0,2]^3 cut into 2 x 2 x 2 cells. *)
Definition cube_222 : PGrav := gz_only 0 2 0 2 0 2 2 2 2 one_obs.

(** Four layers between depth 0 and six times the smallest positive
    float. *)
Definition thin_layers : PGrav :=
  gz_only 0 1 0 1 0 0x6p-1074 1 1 4 one_obs.

(** The unit cube as one cell, observed through [ragged]. *)
Definition unit_ragged : PGrav := gz_only 0 1 0 1 0 1 1 1 1 ragged.

(** A kernel that returns the lower y bound of its prism. *)
Definition y1_kernel (f : Field)
  (dens x1 x2 y1 y2 z1 z2 xp yp zp : float) : float := y1.

(** A [pow] for whole exponents 1 and 2. *)
Definition small_pow (a b : float) : result float :=
  if PrimFloat.eqb b 2%float then Ok (a * a)%float else Ok a.

(** ** Vocabulary for the depth weights *)

(** The right-hand side of the assignment in [depth_weights]:
    [1./(math.sqrt(depth + 0.5*dz + z0)**power)]. *)
Definition layer_weight (float_pow : float -> float -> result float)
  (depth ez z0 power : float) : result float :=
  r <- math_sqrt (depth + 0.5 * ez + z0)%float ;;
  p <- float_pow r power ;;
  py_div 1%float p.

(** The [n x n] matrix with [d i] in place [(i, i)] and zero elsewhere. *)
Definition diag_matrix (n : nat) (d : nat -> float) : matrix :=
  map (fun i => diag_row n i (d i)) (seq 0 n).

(** ** The plotting methods

    [pylab] and [mayavi] draw; what is modelled is the data each method
    computes and hands to them, for a call that returns, and the exception
    it raises otherwise. The calls into [pylab], [mlab], [tvtk] and the
    gridding helpers of the data objects ([get_xgrid], [get_ygrid],
    [togrid]) are taken to return normally. [self.mean], [self.std] and
    [self._sensibility] belong to the solver base class: the vectors read
    from them are arguments. *)

(** [a.min()] and [a.max()] of numpy: a NaN wins; the empty array is a
    [ValueError]. *)
Definition fmin (a b : float) : float :=
  if is_nan a then a
  else if is_nan b then b
  else if PrimFloat.ltb b a then b else a.

Definition vec_min (v : vector) : result float :=
  match v with
  | [] => Raise ValueError
  | x :: xs => Ok (fold_left fmin xs x)
  end.

Definition vec_max (v : vector) : result float :=
  match v with
  | [] => Raise ValueError
  | x :: xs => Ok (fold_left fmax xs x)
  end.

Definition array_min (m : matrix) : result float := vec_min (concat m).

(** Python's [min([a, b])] and [max([a, b])]. *)
Definition py_min2 (a b : float) : float :=
  if PrimFloat.ltb b a then b else a.

Definition py_max2 (a b : float) : float :=
  if PrimFloat.ltb a b then b else a.

(** The shape [numpy.reshape] gives an array of [size] entries: one
    dimension may be [-1] and is then inferred; the sizes must agree. *)
Definition infer_shape (size : nat) (dims : list Z) : result (list nat) :=
  if existsb (fun d => (d <? -1)%Z) dims then Raise ValueError
  else
    let known :=
      fold_right Z.mul 1%Z (filter (fun d => negb (d =? -1)%Z) dims) in
    match length (filter (fun d => (d =? -1)%Z) dims) with
    | 0 =>
        if (Z.of_nat size =? known)%Z then Ok (map Z.to_nat dims)
        else Raise ValueError
    | 1 =>
        if (known =? 0)%Z then Raise ValueError
        else if (Z.of_nat size mod known =? 0)%Z then
          Ok (map (fun d => if (d =? -1)%Z
                            then Z.to_nat (Z.of_nat size / known)
                            else Z.to_nat d) dims)
        else Raise ValueError
    | _ => Raise ValueError
    end.

(** [r] consecutive pieces of [c] entries (row-major order). *)
Fixpoint chunks {A : Type} (r c : nat) (v : list A) : list (list A) :=
  match r with
  | O => []
  | S r' => firstn c v :: chunks r' c (skipn c v)
  end.

(** [numpy.reshape(v, (a, b))] and [numpy.reshape(v, (a, b, c))] of a 1-D
    array. *)
Definition reshape2 (v : vector) (shape : Z * Z) : result matrix :=
  dims <- infer_shape (length v) [fst shape; snd shape] ;;
  match dims with
  | [r; c] => Ok (chunks r c v)
  | _ => Raise ValueError
  end.

Definition reshape3 (v : vector) (a b c : Z) : result (list matrix) :=
  dims <- infer_shape (length v) [a; b; c] ;;
  match dims with
  | [p; q; r] => Ok (map (chunks q r) (chunks p (q * r) v))
  | _ => Raise ValueError
  end.

(** [m.T]: the width is read off the first row (a list of rows records
    no width for an array without rows). *)
Definition transpose (m : matrix) : matrix :=
  match m with
  | [] => []
  | row :: _ =>
      map (fun i => map (fun r => nth i r 0%float) m) (seq 0 (length row))
  end.

(** [pylab.meshgrid(a, b)]. *)
Definition meshgrid (a b : vector) : matrix * matrix :=
  (map (fun _ => a) b, map (fun y => map (fun _ => y) a) b).

(** The Python literal [0.001]. *)
Definition milli : float := 0x1.0624dd2f1a9fcp-10%float.

(** [a[0]] and [a[-1]] of a 1-D array. *)
Definition first_entry (v : vector) : result float :=
  match v with
  | [] => Raise IndexError
  | x :: _ => Ok x
  end.

Definition last_entry (v : vector) : result float :=
  match v with
  | [] => Raise IndexError
  | x :: xs => Ok (last xs x)
  end.

(** What [plot_adjustment] draws for one component: the adjusted data on
    the grid and the range of the contour levels. *)
Record Contours : Type := {
  component : Field;
  adjusted_grid : matrix;
  vmin : float;
  vmax : float
}.

(** One [if self._g:] block of [plot_adjustment]; the state is the rest
    of [adjusted] and the figures drawn so far. *)
Definition adj_block (f : Field) (c : option Channel) (shape : Z * Z)
  (st : vector * list Contours) : result (vector * list Contours) :=
  match c with
  | Some ch =>
      if truth ch then
        g <- reshape2 (firstn (len ch) (fst st)) shape ;;
        let adjusted := skipn (len ch) (fst st) in
        gmin <- array_min g ;;
        amin <- vec_min (array ch) ;;
        gmax <- array_max g ;;
        amax <- vec_max (array ch) ;;
        Ok (adjusted,
            snd st ++ [{| component := f; adjusted_grid := g;
                          vmin := py_min2 gmin amin;
                          vmax := py_max2 gmax amax |}])
      else Ok st
  | None => Ok st
  end.

(** [PGrav.plot_adjustment], given the value of
    [numpy.dot(self._sensibility, self.mean)]. *)
Definition plot_adjustment (self : PGrav) (adjusted : vector)
  (shape : Z * Z) : result (list Contours) :=
  st <- adj_block Gxx (_gxx self) shape (adjusted, []) ;;
  st <- adj_block Gxy (_gxy self) shape st ;;
  st <- adj_block Gxz (_gxz self) shape st ;;
  st <- adj_block Gyy (_gyy self) shape st ;;
  st <- adj_block Gyz (_gyz self) shape st ;;
  st <- adj_block Gzz (_gzz self) shape st ;;
  Ok (snd st).

(** What [plot_mean] and [plot_std] draw for one layer: the depth in the
    title, the cells [layer.T] given to [pcolor], the colour range when
    one is passed, the node coordinates and the axis limits. *)
Record LayerFigure : Type := {
  layer_z : float;
  cells : matrix;
  color_range : option (float * float);
  mesh_Y : matrix;
  mesh_X : matrix;
  xlim : float * float;
  ylim : float * float
}.

(** The body of the loop over the layers. *)
Definition layer_body (ranged : bool) (model : list matrix)
  (Y X : matrix) (ez : float) (layer : matrix)
  (st : float * list LayerFigure) : result (float * list LayerFigure) :=
  range <- (if ranged then
              lo <- vec_min (concat (concat model)) ;;
              hi <- vec_max (concat (concat model)) ;;
              Ok (Some (lo, hi))
            else Ok None) ;;
  ymin <- array_min Y ;;
  ymax <- array_max Y ;;
  xmin <- array_min X ;;
  xmax <- array_max X ;;
  Ok ((fst st + ez)%float,
      snd st ++ [{| layer_z := fst st;
                    cells := transpose layer;
                    color_range := range;
                    mesh_Y := Y; mesh_X := X;
                    xlim := (ymin, ymax); ylim := (xmin, xmax) |}]).

(** The code shared by [plot_mean] ([ranged = true]: [pcolor] gets
    [vmin] and [vmax]) and [plot_std] ([ranged = false]). *)
Definition plot_layers (ranged : bool) (self : PGrav) (values : vector)
  : result (list LayerFigure) :=
  ex <- py_div_int (_mod_x2 self - _mod_x1 self)%float (_nx self) ;;
  ey <- py_div_int (_mod_y2 self - _mod_y1 self)%float (_ny self) ;;
  ez <- py_div_int (_mod_z2 self - _mod_z1 self)%float (_nz self) ;;
  xs <- arange (_mod_x1 self) (_mod_x2 self + ex)%float ex ;;
  ys <- arange (_mod_y1 self) (_mod_y2 self + ey)%float ey ;;
  let '(Y, X) := meshgrid ys xs in
  shaped <- reshape3 values (_nz self) (_ny self) (_nx self) ;;
  let model := map (map (map (fun v => (v * milli)%float))) shaped in
  st <- for_each model (layer_body ranged model Y X ez)
          (_mod_z1 self, []) ;;
  Ok (snd st).

(** [PGrav.plot_mean], given [self.mean]. *)
Definition plot_mean (self : PGrav) (mean : vector)
  : result (list LayerFigure) := plot_layers true self mean.

(** [PGrav.plot_std], given [self.std]. *)
Definition plot_std (self : PGrav) (stds : vector)
  : result (list LayerFigure) := plot_layers false self stds.

(** What [plot_mean3d] and [plot_std3d] hand to [tvtk] and [mlab]. *)
Record Grid3d : Type := {
  scalars : vector;
  dimensions : Z * Z * Z;
  x_coordinates : vector;
  y_coordinates : vector;
  z_coordinates : vector;
  nb_labels : Z;
  extent : list float;
  surface_vmax : float;
  surface_vmin : float
}.

(** The code shared by [plot_mean3d] and [plot_std3d], which differ in
    the vector they read and in their captions. *)
Definition plot_3d (self : PGrav) (values : vector) : result Grid3d :=
  ex <- py_div_int (_mod_x2 self - _mod_x1 self)%float (_nx self) ;;
  ey <- py_div_int (_mod_y2 self - _mod_y1 self)%float (_ny self) ;;
  ez <- py_div_int (_mod_z2 self - _mod_z1 self)%float (_nz self) ;;
  xs <- arange (_mod_x1 self) (_mod_x2 self + ex)%float ex ;;
  ys <- arange (_mod_y1 self) (_mod_y2 self + ey)%float ey ;;
  zs <- arange (_mod_z1 self) (_mod_z2 self + ez)%float ez ;;
  shaped <- reshape3 values (_nz self) (_ny self) (_nx self) ;;
  let model := map (map (map (fun v => (v * milli)%float))) shaped in
  x0 <- first_entry xs ;;
  x9 <- last_entry xs ;;
  y0 <- first_entry ys ;;
  y9 <- last_entry ys ;;
  z0 <- first_entry zs ;;
  z9 <- last_entry zs ;;
  hi <- vec_max (concat (concat model)) ;;
  lo <- vec_min (concat (concat model)) ;;
  Ok {| scalars := concat (concat model);
        dimensions := (_nx self + 1, _ny self + 1, _nz self + 1)%Z;
        x_coordinates := xs; y_coordinates := ys; z_coordinates := zs;
        nb_labels := (_nx self + 1)%Z;
        extent := [x0; x9; y0; y9; z0; z9];
        surface_vmax := hi; surface_vmin := lo |}.

(** [PGrav.plot_mean3d], given [self.mean]. *)
Definition plot_mean3d (self : PGrav) (mean : vector) : result Grid3d :=
  plot_3d self mean.

(** [PGrav.plot_std3d], given [self.std]. *)
Definition plot_std3d (self : PGrav) (stds : vector) : result Grid3d :=
  plot_3d self stds.

(** ** Vocabulary for the plots *)

(** The tensor components, in the order of the blocks of
    [plot_adjustment]. *)
Definition tensor_fields : list Field := [Gxx; Gxy; Gxz; Gyy; Gyz; Gzz].

(** The present tensor components and their observations, in that
    order. *)
Definition present_tensor (self : PGrav) : list (Field * Channel) :=
  flat_map (fun f => chosen f (channel self f)) tensor_fields.

Definition tensor_observations (self : PGrav) : list (Field * nat) :=
  flat_map (fun fc => map (fun i => (fst fc, i)) (seq 0 (len (snd fc))))
    (present_tensor self).

(** The number of rows the gz channel puts before them in the system. *)
Definition gz_rows (self : PGrav) : nat :=
  match _gz self with
  | Some ch => if truth ch then len ch else 0
  | None => 0
  end.

(** The values drawn as adjusted data, each with the component under
    whose title it is drawn, in drawing order. *)
Definition plotted (figs : list Contours) : list (Field * float) :=
  flat_map (fun fig => map (fun v => (component fig, v))
                         (concat (adjusted_grid fig))) figs.

(** The depth in the title of the [k]-th layer: [z] after [k] rounds of
    [z += dz]. *)
Fixpoint z_after (z ez : float) (k : nat) : float :=
  match k with
  | O => z
  | S k' => z_after (z + ez)%float ez k'
  end.

(** A system with the scalar channel and one tensor component. *)
Definition gz_and_gxx : PGrav :=
  {| _gz := Some one_obs; _gxx := Some one_obs; _gxy := None;
     _gxz := None; _gyy := None; _gyz := None; _gzz := None;
     _mod_x1 := 0; _mod_x2 := 2; _mod_y1 := 0; _mod_y2 := 2;
     _mod_z1 := 0; _mod_z2 := 2; _nx := 2; _ny := 2; _nz := 2 |}.

(** The three cell-size divisions that open [_build_sensibility] and
    every plotting method. *)
Definition cell_sizes (self : PGrav) : result (float * float * float) :=
  ex <- py_div_int (_mod_x2 self - _mod_x1 self)%float (_nx self) ;;
  ey <- py_div_int (_mod_y2 self - _mod_y1 self)%float (_ny self) ;;
  ez <- py_div_int (_mod_z2 self - _mod_z1 self)%float (_nz self) ;;
  Ok (ex, ey, ez).

(** Eight parameter values, [1] to [8]. *)
Definition one_to_eight : vector := [1; 2; 3; 4; 5; 6; 7; 8]%float.

(** ** Exceptions and sequencing *)

Lemma bind_Ok_inv (A B : Type) (r : result A) (k : A -> result B) (b : B) :
  bind r k = Ok b -> exists a, r = Ok a /\ k a = Ok b.
Proof.
  destruct r as [a|e]; simpl; intros H.
  - exists a. split; [reflexivity | exact H].
  - discriminate H.
Qed.

Lemma py_div_raises (a b : float) (e : exn) :
  py_div a b = Raise e -> e = ZeroDivisionError.
Proof.
  unfold py_div. destruct (PrimFloat.eqb b 0); intros H.
  - now inversion H.
  - discriminate H.
Qed.

Lemma float_of_Z_raises (n : Z) (e : exn) :
  float_of_Z n = Raise e -> e = OverflowError.
Proof.
  unfold float_of_Z. destruct (is_infinity (nearest_float n)); intros H.
  - now inversion H.
  - discriminate H.
Qed.

Lemma float_of_Z_0 : float_of_Z 0 = Ok 0%float.
Proof. reflexivity. Qed.

Lemma py_div_by_zero (a : float) : py_div_int a 0 = Raise ZeroDivisionError.
Proof. unfold py_div_int. rewrite float_of_Z_0. reflexivity. Qed.

(** [a / n] raises for two reasons only: the int does not fit a float, or
    it does and the float is zero. *)
Lemma py_div_int_raises (a : float) (n : Z) (e : exn) :
  py_div_int a n = Raise e ->
  (e = OverflowError /\ float_of_Z n = Raise OverflowError) \/
  (e = ZeroDivisionError /\ exists b, float_of_Z n = Ok b).
Proof.
  unfold py_div_int. destruct (float_of_Z n) as [b|e'] eqn:E; simpl.
  - intros H. apply py_div_raises in H. right. split; [exact H|].
    now exists b.
  - intros H. inversion H; subst e'. apply float_of_Z_raises in E.
    subst e. left. split; reflexivity.
Qed.

(** ** The constructor *)

Lemma init_Ok x1 x2 y1 y2 z1 z2 nx ny nz gz gxx gxy gxz gyy gyz gzz :
  truthy gz || truthy gxx || truthy gxy || truthy gxz
    || truthy gyy || truthy gyz || truthy gzz = true ->
  __init__ x1 x2 y1 y2 z1 z2 nx ny nz gz gxx gxy gxz gyy gyz gzz =
  Ok {| _gz := gz; _gxx := gxx; _gxy := gxy; _gxz := gxz;
        _gyy := gyy; _gyz := gyz; _gzz := gzz;
        _mod_x1 := x1; _mod_x2 := x2; _mod_y1 := y1; _mod_y2 := y2;
        _mod_z1 := z1; _mod_z2 := z2; _nx := nx; _ny := ny; _nz := nz |}.
Proof.
  intros H. unfold __init__. rewrite H. reflexivity.
Qed.

Lemma init_Raise x1 x2 y1 y2 z1 z2 nx ny nz gz gxx gxy gxz gyy gyz gzz :
  truthy gz || truthy gxx || truthy gxy || truthy gxz
    || truthy gyy || truthy gyz || truthy gzz = false ->
  __init__ x1 x2 y1 y2 z1 z2 nx ny nz gz gxx gxy gxz gyy gyz gzz =
  Raise RuntimeError.
Proof.
  intros H. unfold __init__. rewrite H. reflexivity.
Qed.

(** C7. With all seven channel arguments absent the constructor raises
    [RuntimeError], so no object exists on which an assembler could run;
    with at least one truthy channel it returns the object, whose list of
    present channels is not empty. *)
Theorem init_requires_a_channel :
  (forall x1 x2 y1 y2 z1 z2 nx ny nz,
      __init__ x1 x2 y1 y2 z1 z2 nx ny nz
        None None None None None None None = Raise RuntimeError) /\
  (forall x1 x2 y1 y2 z1 z2 nx ny nz gz gxx gxy gxz gyy gyz gzz,
      truthy gz || truthy gxx || truthy gxy || truthy gxz
        || truthy gyy || truthy gyz || truthy gzz = true ->
      exists self,
        __init__ x1 x2 y1 y2 z1 z2 nx ny nz gz gxx gxy gxz gyy gyz gzz
        = Ok self /\ present self <> []).
Proof.
  split.
  - intros. apply init_Raise. reflexivity.
  - intros x1 x2 y1 y2 z1 z2 nx ny nz gz gxx gxy gxz gyy gyz gzz H.
    eexists. split; [apply init_Ok; exact H|].
    unfold present, fields; simpl.
    destruct gz as [c1|], gxx as [c2|], gxy as [c3|], gxz as [c4|];
      simpl in *; try destruct (truth c1); try destruct (truth c2);
      try destruct (truth c3); try destruct (truth c4);
      simpl in *; try discriminate;
      destruct gyy as [c5|], gyz as [c6|], gzz as [c7|];
      simpl in *; try destruct (truth c5); try destruct (truth c6);
      try destruct (truth c7); simpl in *; discriminate.
Qed.

Lemma init_requires_a_channel_witness :
  exists self,
    __init__ 0 1 0 1 0 1 1 1 1 (Some one_obs) None None None None None None
    = Ok self /\ present self <> [].
Proof.
  apply (proj2 init_requires_a_channel). reflexivity.
Defined.

(** ** Lists *)

Lemma nth_error_map_seq (A : Type) (h : nat -> A) (n i : nat) (a : A) :
  nth_error (map h (seq 0 n)) i = Some a -> i < n /\ a = h i.
Proof.
  intros H. rewrite nth_error_map in H.
  destruct (nth_error (seq 0 n) i) as [j|] eqn:E; [|discriminate H].
  assert (Hi : i < n).
  { rewrite <- (length_seq n 0). apply nth_error_Some. congruence. }
  split; [exact Hi|].
  rewrite (nth_error_nth' _ 0) in E by (rewrite length_seq; exact Hi).
  rewrite seq_nth in E by exact Hi. simpl in E, H. congruence.
Qed.

Lemma nth_error_seq_map (A : Type) (h : nat -> A) (n i : nat) :
  i < n -> nth_error (map h (seq 0 n)) i = Some (h i).
Proof.
  intros Hi. rewrite nth_error_map.
  rewrite (nth_error_nth' _ 0) by (rewrite length_seq; exact Hi).
  rewrite seq_nth by exact Hi. reflexivity.
Qed.

(** Two concatenations of blocks of equal lengths are indexed alike. *)
Lemma nth_error_flat_map_aligned (X A B : Type)
  (f : X -> list A) (g : X -> list B) (l : list X) :
  (forall x, In x l -> length (f x) = length (g x)) ->
  forall r a, nth_error (flat_map f l) r = Some a ->
  exists x i, In x l /\ nth_error (f x) i = Some a /\
              nth_error (flat_map g l) r = nth_error (g x) i.
Proof.
  induction l as [|x l IH]; intros Hlen r a Hr.
  - destruct r; discriminate Hr.
  - simpl in Hr |- *.
    assert (E : length (f x) = length (g x)) by (apply Hlen; now left).
    destruct (Nat.lt_ge_cases r (length (f x))) as [Hlt|Hge].
    + rewrite nth_error_app1 in Hr by exact Hlt.
      exists x, r. split; [now left|]. split; [exact Hr|].
      apply nth_error_app1. rewrite <- E. exact Hlt.
    + rewrite nth_error_app2 in Hr by exact Hge.
      destruct (IH (fun y Hy => Hlen y (or_intror Hy)) _ _ Hr)
        as (y & i & Hy & Hf & Hg).
      exists y, i. split; [now right|]. split; [exact Hf|].
      rewrite nth_error_app2 by (rewrite <- E; exact Hge).
      rewrite <- E. exact Hg.
Qed.

Lemma nth_error_combine_seq (A : Type) (v : list A) (a r : nat) :
  nth_error (combine (seq a (length v)) v) r =
  option_map (fun x => (a + r, x)) (nth_error v r).
Proof.
  revert a r. induction v as [|x v IH]; intros a r.
  - destruct r; reflexivity.
  - destruct r as [|r]; simpl.
    + now rewrite Nat.add_0_r.
    + rewrite IH. now rewrite Nat.add_succ_r.
Qed.

Lemma nth_error_diag (v : vector) (r : nat) :
  nth_error (diag v) r =
  option_map (fun x => diag_row (length v) r x) (nth_error v r).
Proof.
  unfold diag. rewrite nth_error_map, nth_error_combine_seq.
  destruct (nth_error v r); reflexivity.
Qed.

(** ** Present channels *)

Lemma present_blocks (self : PGrav) :
  present self =
  chosen Gz (_gz self) ++ chosen Gxx (_gxx self) ++ chosen Gxy (_gxy self)
    ++ chosen Gxz (_gxz self) ++ chosen Gyy (_gyy self)
    ++ chosen Gyz (_gyz self) ++ chosen Gzz (_gzz self).
Proof.
  unfold present, fields. simpl. now rewrite app_nil_r.
Qed.

Lemma In_chosen (f f' : Field) (c : option Channel) (ch : Channel) :
  In (f, ch) (chosen f' c) <-> f = f' /\ c = Some ch /\ truth ch = true.
Proof.
  unfold chosen. destruct c as [c0|]; [destruct (truth c0) eqn:T|]; simpl.
  - split.
    + intros [H|[]]. inversion H; subst. auto.
    + intros (-> & H & _). inversion H; subst. now left.
  - split; [intros []|]. intros (_ & H & T'). inversion H; subst. congruence.
  - split; [intros []|]. intros (_ & H & _). discriminate H.
Qed.

Lemma In_present (self : PGrav) (f : Field) (ch : Channel) :
  In (f, ch) (present self) <->
  channel self f = Some ch /\ truth ch = true.
Proof.
  unfold present. rewrite in_flat_map. split.
  - intros (f' & _ & H). apply In_chosen in H as (-> & H & T). now split.
  - intros [E T]. exists f. split.
    + destruct f; simpl; tauto.
    + apply In_chosen. auto.
Qed.

Lemma length_rows_present kernel (g : Prisms) (self : PGrav) :
  length (flat_map (rows_of kernel g) (present self)) = total len self.
Proof.
  rewrite length_flat_map. unfold total. f_equal.
  apply map_ext. intros fc. unfold rows_of.
  now rewrite length_map, length_seq.
Qed.

Section Stacking.

Variable prism_gravity :
  Field -> float -> float -> float -> float -> float -> float -> float ->
  float -> float -> float -> float.

Lemma sens_block_app (g : Prisms) (f : Field) (c : option Channel) (s : matrix) :
  sens_block prism_gravity f c (dx g) (dy g) (dz g)
    (prism_xs g) (prism_ys g) (prism_zs g) s =
  s ++ flat_map (rows_of prism_gravity g) (chosen f c).
Proof.
  unfold sens_block, chosen, rows_of. destruct c as [ch|]; simpl.
  - destruct (truth ch); simpl; now rewrite app_nil_r.
  - now rewrite app_nil_r.
Qed.

Lemma append_block_app (attr : Channel -> vector) (f : Field)
  (c : option Channel) (d : vector) :
  append_block attr c d = d ++ flat_map (fun fc => attr (snd fc)) (chosen f c).
Proof.
  unfold append_block, chosen. destruct c as [ch|]; simpl.
  - destruct (truth ch); simpl; now rewrite app_nil_r.
  - now rewrite app_nil_r.
Qed.

(** The sensitivity rows are the blocks of the present channels, in the
    declared order. *)
Lemma sens_rows_present (self : PGrav) (g : Prisms) :
  sens_rows prism_gravity self (dx g) (dy g) (dz g)
    (prism_xs g) (prism_ys g) (prism_zs g) =
  flat_map (rows_of prism_gravity g) (present self).
Proof.
  unfold sens_rows. rewrite !sens_block_app, present_blocks.
  rewrite !flat_map_app. simpl. rewrite <- !app_assoc. reflexivity.
Qed.

Lemma stack_present (attr : Channel -> vector) (self : PGrav) :
  stack attr self = flat_map (fun fc => attr (snd fc)) (present self).
Proof.
  unfold stack.
  rewrite (append_block_app attr Gzz), (append_block_app attr Gyz),
    (append_block_app attr Gyy), (append_block_app attr Gxz),
    (append_block_app attr Gxy), (append_block_app attr Gxx),
    (append_block_app attr Gz), present_blocks.
  rewrite !flat_map_app. simpl. rewrite <- !app_assoc. reflexivity.
Qed.

(** What [_build_sensibility] returns when it returns. *)
Lemma build_sensibility_Ok (self : PGrav) (S : matrix) :
  _build_sensibility prism_gravity self = Ok S ->
  exists g, prisms self = Ok g /\ S = flat_map (rows_of prism_gravity g) (present self).
Proof.
  unfold _build_sensibility, prisms. intros H.
  destruct (py_div_int _ (_nx self)) as [ex|]; [|discriminate H].
  destruct (py_div_int _ (_ny self)) as [ey|]; [|discriminate H].
  destruct (py_div_int _ (_nz self)) as [ez|]; [|discriminate H].
  simpl in H |- *.
  destruct (arange _ _ ex) as [xs|]; [|discriminate H].
  destruct (arange _ _ ey) as [ys|]; [|discriminate H].
  destruct (arange _ _ ez) as [zs|]; [|discriminate H].
  simpl in H |- *. eexists. split; [reflexivity|].
  rewrite <- sens_rows_present. simpl.
  destruct (sens_rows _ _ _ _ _ _ _ _); [discriminate H|].
  now inversion H.
Qed.

(** ... and it returns whenever the grid can be cut and a row exists. *)
Lemma build_sensibility_returns (self : PGrav) (g : Prisms) :
  prisms self = Ok g ->
  flat_map (rows_of prism_gravity g) (present self) <> [] ->
  _build_sensibility prism_gravity self =
  Ok (flat_map (rows_of prism_gravity g) (present self)).
Proof.
  unfold _build_sensibility, prisms. intros H Hne.
  destruct (py_div_int _ (_nx self)) as [ex|]; [|discriminate H].
  destruct (py_div_int _ (_ny self)) as [ey|]; [|discriminate H].
  destruct (py_div_int _ (_nz self)) as [ez|]; [|discriminate H].
  simpl in H |- *.
  destruct (arange _ _ ex) as [xs|]; [|discriminate H].
  destruct (arange _ _ ey) as [ys|]; [|discriminate H].
  destruct (arange _ _ ez) as [zs|]; [|discriminate H].
  simpl in H |- *. inversion H; subst g; clear H.
  rewrite <- sens_rows_present in Hne |- *. simpl in Hne |- *.
  destruct (sens_rows _ _ _ _ _ _ _ _); [contradiction Hne; reflexivity|].
  reflexivity.
Qed.

Lemma data_array_present (self : PGrav) :
  _get_data_array self = flat_map (fun fc => array (snd fc)) (present self).
Proof. apply stack_present. Qed.

Lemma data_cov_present (self : PGrav) :
  _get_data_cov self =
  diag (map (fun s => (s * s)%float)
          (flat_map (fun fc => std (snd fc)) (present self))).
Proof. unfold _get_data_cov. now rewrite stack_present. Qed.

Lemma length_observations (self : PGrav) :
  length (observations self) = total len self.
Proof.
  unfold observations, total. rewrite length_flat_map.
  f_equal. apply map_ext. intros fc. now rewrite length_map, length_seq.
Qed.

(** An entry of the list of observations names a present channel and one
    of its locations. *)
Lemma observations_inv (self : PGrav) (r : nat) (f : Field) (i : nat) :
  nth_error (observations self) r = Some (f, i) ->
  exists ch, channel self f = Some ch /\ truth ch = true /\ i < len ch.
Proof.
  intros H. apply nth_error_In in H. unfold observations in H.
  apply in_flat_map in H as ([f' ch] & Hin & H).
  apply in_map_iff in H as (j & E & Hj). simpl in E. inversion E; subst.
  apply in_seq in Hj. simpl in Hj. apply In_present in Hin as [Hc Ht].
  exists ch. repeat split; [exact Hc | exact Ht | lia].
Qed.

(** With the grid cut and an observation to report, the matrix is
    returned. *)
Lemma build_sensibility_total (self : PGrav) (g : Prisms) :
  prisms self = Ok g ->
  observations self <> [] ->
  _build_sensibility prism_gravity self =
  Ok (flat_map (rows_of prism_gravity g) (present self)).
Proof.
  intros Hg Hne. apply build_sensibility_returns; [exact Hg|].
  intros E. apply Hne. apply length_zero_iff_nil.
  rewrite length_observations, <- (length_rows_present prism_gravity g).
  now rewrite E.
Qed.

(** C3. The data vector, the standard deviations behind the covariance
    and the sensitivity rows are the concatenation, over the present
    channels in the order gz, gxx, gxy, gxz, gyy, gyz, gzz, of each
    channel's values, uncertainties and rows, and the covariance is the
    diagonal matrix of the squared uncertainties. The sensitivity matrix
    is returned, with these rows, whenever the cell sizes and the prism
    origins are computed and there is an observation, and it is never
    returned with other rows. For channels that hold as many values and
    uncertainties as locations, entry [r] of the data vector, row [r] of
    the covariance and row [r] of the returned sensitivity matrix all
    belong to the same (channel, observation) pair. *)
Theorem rows_name_the_same_observation (self : PGrav) :
  _get_data_array self = flat_map (fun fc => array (snd fc)) (present self)
  /\ _get_data_cov self =
     diag (map (fun s => (s * s)%float)
             (flat_map (fun fc => std (snd fc)) (present self)))
  /\ (forall g, prisms self = Ok g -> observations self <> [] ->
        _build_sensibility prism_gravity self =
        Ok (flat_map (rows_of prism_gravity g) (present self)))
  /\ (forall S, _build_sensibility prism_gravity self = Ok S ->
        exists g, prisms self = Ok g /\
                  S = flat_map (rows_of prism_gravity g) (present self))
  /\ ((forall f ch, channel self f = Some ch -> truth ch = true ->
         length (array ch) = len ch /\ length (std ch) = len ch) ->
      forall r f i, nth_error (observations self) r = Some (f, i) ->
        exists ch y s,
          channel self f = Some ch /\ truth ch = true /\
          nth_error (array ch) i = Some y /\
          nth_error (std ch) i = Some s /\
          nth_error (_get_data_array self) r = Some y /\
          nth_error (_get_data_cov self) r =
            Some (diag_row (total len self) r (s * s)%float) /\
          (forall g, prisms self = Ok g ->
             exists S,
               _build_sensibility prism_gravity self = Ok S /\
               nth_error S r =
                 Some (line prism_gravity f (dx g) (dy g) (dz g)
                         (prism_xs g) (prism_ys g) (prism_zs g)
                         (loc ch i)))).
Proof.
  split; [apply data_array_present|].
  split; [apply data_cov_present|].
  split; [intros g; apply build_sensibility_total|].
  split; [intros S; apply build_sensibility_Ok|].
  intros WF r f i Hr.
  set (lab := fun fc : Field * Channel =>
                map (fun j => (fst fc, j)) (seq 0 (len (snd fc)))).
  assert (Hwf : forall fc, In fc (present self) ->
                  length (array (snd fc)) = len (snd fc) /\
                  length (std (snd fc)) = len (snd fc)).
  { intros [f' c] Hin. apply In_present in Hin as [Hc Ht]. simpl.
    exact (WF _ _ Hc Ht). }
  assert (Hlab : forall fc, length (lab fc) = len (snd fc)).
  { intros fc. unfold lab. now rewrite length_map, length_seq. }
  (* the data vector *)
  destruct (@nth_error_flat_map_aligned _ _ _ lab (fun fc => array (snd fc))
              (present self)) with (r := r) (a := (f, i))
    as ([f1 c1] & i1 & Hin1 & Hl1 & Ha).
  { intros fc Hin. rewrite Hlab. symmetry. now apply Hwf. }
  { exact Hr. }
  apply nth_error_map_seq in Hl1 as [Hi1 E1]. simpl in E1, Hi1.
  inversion E1; subst f1 i1; clear E1.
  (* the uncertainties *)
  destruct (@nth_error_flat_map_aligned _ _ _ lab (fun fc => std (snd fc))
              (present self)) with (r := r) (a := (f, i))
    as ([f2 c2] & i2 & Hin2 & Hl2 & Hs).
  { intros fc Hin. rewrite Hlab. symmetry. now apply Hwf. }
  { exact Hr. }
  apply nth_error_map_seq in Hl2 as [Hi2 E2]. simpl in E2, Hi2.
  inversion E2; subst f2 i2; clear E2.
  apply In_present in Hin1 as [Hc1 Ht1].
  apply In_present in Hin2 as [Hc2 Ht2].
  assert (c2 = c1) by congruence. subst c2.
  destruct (WF _ _ Hc1 Ht1) as [La Ls].
  destruct (nth_error (array c1) i) as [y|] eqn:Ey;
    [|apply nth_error_None in Ey; lia].
  destruct (nth_error (std c1) i) as [s|] eqn:Es;
    [|apply nth_error_None in Es; lia].
  simpl in Ha, Hs. rewrite Ey in Ha. rewrite Es in Hs.
  exists c1, y, s.
  split; [exact Hc1|]. split; [exact Ht1|].
  split; [exact Ey|]. split; [exact Es|].
  split; [rewrite data_array_present; exact Ha|].
  split.
  - rewrite data_cov_present, nth_error_diag, nth_error_map, Hs. simpl.
    rewrite length_map, length_flat_map. unfold total.
    do 3 f_equal. apply map_ext_in. intros fc Hin. now apply Hwf.
  - intros g Hg. eexists. split.
    + apply build_sensibility_total; [exact Hg|].
      intros E. rewrite E in Hr. destruct r; discriminate Hr.
    + destruct (@nth_error_flat_map_aligned _ _ _ lab
                  (rows_of prism_gravity g) (present self))
        with (r := r) (a := (f, i))
        as ([f3 c3] & i3 & Hin3 & Hl3 & Hrow).
      { intros fc Hin. rewrite Hlab. unfold rows_of.
        now rewrite length_map, length_seq. }
      { exact Hr. }
      apply nth_error_map_seq in Hl3 as [Hi3 E3]. simpl in E3, Hi3.
      inversion E3; subst f3 i3; clear E3.
      apply In_present in Hin3 as [Hc3 Ht3].
      assert (c3 = c1) by congruence. subst c3.
      rewrite Hrow. unfold rows_of. simpl.
      now rewrite nth_error_seq_map.
Qed.

End Stacking.

Lemma rows_name_the_same_observation_witness :
  exists ch y s S g,
    channel cube_222 Gz = Some ch /\ truth ch = true /\
    nth_error (array ch) 0 = Some y /\
    nth_error (std ch) 0 = Some s /\
    nth_error (_get_data_array cube_222) 0 = Some y /\
    nth_error (_get_data_cov cube_222) 0 =
      Some (diag_row (total len cube_222) 0 (s * s)%float) /\
    prisms cube_222 = Ok g /\
    _build_sensibility y1_kernel cube_222 = Ok S /\
    nth_error S 0 =
      Some (line y1_kernel Gz (dx g) (dy g) (dz g)
              (prism_xs g) (prism_ys g) (prism_zs g) (loc ch 0)).
Proof.
  assert (WF : forall f ch, channel cube_222 f = Some ch ->
                 truth ch = true ->
                 length (array ch) = len ch /\ length (std ch) = len ch).
  { intros f ch H T.
    destruct f; simpl in H; inversion H; subst; split; reflexivity. }
  destruct (proj2 (proj2 (proj2 (proj2
              (rows_name_the_same_observation y1_kernel cube_222))))
              WF 0 Gz 0 eq_refl)
    as (ch & y & s & Hc & Ht & Hy & Hs & Hd & Hcov & Hrow).
  assert (Hg : exists g, prisms cube_222 = Ok g)
    by (eexists; vm_compute; reflexivity).
  destruct Hg as [g Hg].
  destruct (Hrow g Hg) as (S & HS & Hr).
  exists ch, y, s, S, g.
  repeat (split; [assumption|]). exact Hr.
Defined.

(** ** Truthiness *)

Lemma chosen_absent_if_falsy (f : Field) (c : option Channel) :
  chosen f (absent_if_falsy c) = chosen f c.
Proof.
  unfold absent_if_falsy, chosen, truthy.
  destruct c as [ch|]; [|reflexivity].
  destruct (truth ch) eqn:T; [now rewrite T | reflexivity].
Qed.

Lemma present_without_falsy (self : PGrav) :
  present (without_falsy self) = present self.
Proof.
  rewrite !present_blocks. simpl. now rewrite !chosen_absent_if_falsy.
Qed.

Lemma sens_rows_without_falsy kernel (self : PGrav) ex ey ez xs ys zs :
  sens_rows kernel (without_falsy self) ex ey ez xs ys zs =
  sens_rows kernel self ex ey ez xs ys zs.
Proof.
  pose (g := {| dx := ex; dy := ey; dz := ez;
                prism_xs := xs; prism_ys := ys; prism_zs := zs |}).
  change (sens_rows kernel (without_falsy self) (dx g) (dy g) (dz g)
            (prism_xs g) (prism_ys g) (prism_zs g) =
          sens_rows kernel self (dx g) (dy g) (dz g)
            (prism_xs g) (prism_ys g) (prism_zs g)).
  now rewrite !sens_rows_present, present_without_falsy.
Qed.

(** C10. A data object counts as present only when it is truthy: seven
    supplied but falsy objects raise the constructor's [RuntimeError], and
    every assembler returns what it returns once each falsy object has been
    replaced by [None] - a falsy object adds no sensitivity row and no
    entry of the data vector or of the covariance. *)
Theorem falsy_channel_is_absent :
  (forall x1 x2 y1 y2 z1 z2 nx ny nz c1 c2 c3 c4 c5 c6 c7,
      truth c1 = false -> truth c2 = false -> truth c3 = false ->
      truth c4 = false -> truth c5 = false -> truth c6 = false ->
      truth c7 = false ->
      __init__ x1 x2 y1 y2 z1 z2 nx ny nz (Some c1) (Some c2) (Some c3)
        (Some c4) (Some c5) (Some c6) (Some c7) = Raise RuntimeError)
  /\ (forall self f, truthy (channel self f) = false ->
        channel (without_falsy self) f = None)
  /\ (forall kernel self,
        _build_sensibility kernel (without_falsy self) =
        _build_sensibility kernel self)
  /\ (forall self,
        _get_data_array (without_falsy self) = _get_data_array self)
  /\ (forall self, _get_data_cov (without_falsy self) = _get_data_cov self)
  /\ (forall kernel f c ex ey ez xs ys zs sensibility,
        truthy c = false ->
        sens_block kernel f c ex ey ez xs ys zs sensibility = sensibility)
  /\ (forall attr c data,
        truthy c = false -> append_block attr c data = data).
Proof.
  repeat split.
  - intros. apply init_Raise. simpl.
    repeat match goal with H : truth _ = false |- _ => rewrite H; clear H end.
    reflexivity.
  - intros self f H. destruct f; simpl in *; unfold absent_if_falsy;
      now rewrite H.
  - intros kernel self. unfold _build_sensibility. simpl.
    destruct (py_div_int _ (_nx self)) as [ex|]; [|reflexivity].
    destruct (py_div_int _ (_ny self)) as [ey|]; [|reflexivity].
    destruct (py_div_int _ (_nz self)) as [ez|]; [|reflexivity].
    simpl.
    destruct (arange _ _ ex) as [xs|]; [|reflexivity].
    destruct (arange _ _ ey) as [ys|]; [|reflexivity].
    destruct (arange _ _ ez) as [zs|]; [|reflexivity].
    simpl. now rewrite sens_rows_without_falsy.
  - intros self. unfold _get_data_array.
    now rewrite !stack_present, present_without_falsy.
  - intros self. unfold _get_data_cov.
    now rewrite !stack_present, present_without_falsy.
  - intros kernel f c ex ey ez xs ys zs s H. unfold sens_block.
    destruct c as [ch|]; [|reflexivity]. simpl in H. now rewrite H.
  - intros attr c d H. unfold append_block.
    destruct c as [ch|]; [|reflexivity]. simpl in H. now rewrite H.
Qed.

Lemma falsy_channel_is_absent_witness :
  __init__ 0 1 0 1 0 1 1 1 1 (Some muted) (Some hollow) (Some hollow)
    (Some hollow) (Some hollow) (Some hollow) (Some muted)
  = Raise RuntimeError.
Proof.
  apply (proj1 falsy_channel_is_absent); reflexivity.
Defined.

(** ** What the constructor does not check *)

(** C8, as stated, fails: a channel with two locations and one value is
    accepted by the constructor, the sensitivity matrix is assembled with
    two rows and the data vector with one entry. *)
Lemma ragged_channel_is_assembled :
  len ragged <> length (array ragged) /\
  __init__ 0 1 0 1 0 1 1 1 1 (Some ragged) None None None None None None
    = Ok unit_ragged /\
  (forall kernel, exists S,
      _build_sensibility kernel unit_ragged = Ok S /\ length S = 2) /\
  length (_get_data_array unit_ragged) = 1.
Proof.
  split; [simpl; discriminate|].
  split; [reflexivity|].
  split; [|reflexivity].
  intros kernel. eexists. split; [vm_compute; reflexivity | reflexivity].
Qed.

(** C8, amended. No count is compared with another: the constructor
    succeeds as soon as one channel is truthy, whatever the numbers of
    locations, values and uncertainties; the data vector then has as many
    entries as the present channels hold values, the covariance as many
    rows as they hold uncertainties, and the sensitivity matrix, whenever
    the grid can be cut and a location exists, is returned with as many
    rows as they report locations. *)
Theorem counts_are_never_compared
  x1 x2 y1 y2 z1 z2 nx ny nz gz gxx gxy gxz gyy gyz gzz :
  truthy gz || truthy gxx || truthy gxy || truthy gxz
    || truthy gyy || truthy gyz || truthy gzz = true ->
  exists self,
    __init__ x1 x2 y1 y2 z1 z2 nx ny nz gz gxx gxy gxz gyy gyz gzz
      = Ok self /\
    length (_get_data_array self) =
      total (fun ch => length (array ch)) self /\
    length (_get_data_cov self) = total (fun ch => length (std ch)) self /\
    (forall kernel g, prisms self = Ok g -> 0 < total len self ->
       exists S, _build_sensibility kernel self = Ok S /\
                 length S = total len self) /\
    (forall kernel S, _build_sensibility kernel self = Ok S ->
       length S = total len self).
Proof.
  intros H. eexists. split; [apply init_Ok; exact H|].
  set (self := {| _gz := gz |}).
  split; [|split; [|split]].
  - rewrite data_array_present, length_flat_map. reflexivity.
  - rewrite data_cov_present. unfold diag.
    rewrite length_map, length_combine, length_seq, Nat.min_id.
    rewrite length_map, length_flat_map. reflexivity.
  - intros kernel g Hg Hpos. eexists. split.
    + apply build_sensibility_returns; [exact Hg|].
      intros E. apply (f_equal (@length _)) in E.
      rewrite length_rows_present in E. simpl in E. lia.
    + apply length_rows_present.
  - intros kernel S HS.
    apply build_sensibility_Ok in HS as (g & _ & ->).
    apply length_rows_present.
Qed.

Lemma counts_are_never_compared_witness :
  exists self,
    __init__ 0 1 0 1 0 1 1 1 1 (Some ragged) None None None None None None
      = Ok self /\
    length (_get_data_array self) =
      total (fun ch => length (array ch)) self /\
    length (_get_data_cov self) = total (fun ch => length (std ch)) self /\
    (forall kernel g, prisms self = Ok g -> 0 < total len self ->
       exists S, _build_sensibility kernel self = Ok S /\
                 length S = total len self) /\
    (forall kernel S, _build_sensibility kernel self = Ok S ->
       length S = total len self).
Proof.
  apply counts_are_never_compared. reflexivity.
Defined.

(** C9, as stated, fails: a zero or negative cell count and inverted or
    empty bounds are all accepted by the constructor. *)
Lemma bad_grid_is_constructed :
  __init__ 0 1 0 1 0 1 0 1 1 (Some one_obs) None None None None None None
    = Ok (gz_only 0 1 0 1 0 1 0 1 1 one_obs) /\
  __init__ 0 1 0 1 0 1 1 (-2) 1 (Some one_obs) None None None None None None
    = Ok (gz_only 0 1 0 1 0 1 1 (-2) 1 one_obs) /\
  __init__ 1 0 0 1 0 1 1 1 1 (Some one_obs) None None None None None None
    = Ok (gz_only 1 0 0 1 0 1 1 1 1 one_obs) /\
  __init__ 0 1 0 1 1 1 1 1 1 (Some one_obs) None None None None None None
    = Ok (gz_only 0 1 0 1 1 1 1 1 1 one_obs).
Proof.
  repeat split.
Qed.

(** C9, amended. The constructor validates neither the cell counts nor
    the bounds: with one truthy channel it succeeds and stores them as
    given. A zero cell count is reported only when the sensitivity matrix
    is built: as the [ZeroDivisionError] of its cell-size division when
    the counts before it can be converted to floats, and otherwise by the
    [OverflowError] of the earlier conversion. *)
Theorem grid_is_stored_unchecked
  x1 x2 y1 y2 z1 z2 nx ny nz gz gxx gxy gxz gyy gyz gzz :
  truthy gz || truthy gxx || truthy gxy || truthy gxz
    || truthy gyy || truthy gyz || truthy gzz = true ->
  exists self,
    __init__ x1 x2 y1 y2 z1 z2 nx ny nz gz gxx gxy gxz gyy gyz gzz
      = Ok self /\
    (_nx self, _ny self, _nz self) = (nx, ny, nz) /\
    (_mod_x1 self, _mod_x2 self, _mod_y1 self, _mod_y2 self,
     _mod_z1 self, _mod_z2 self) = (x1, x2, y1, y2, z1, z2) /\
    (forall kernel, nx = 0%Z ->
       _build_sensibility kernel self = Raise ZeroDivisionError) /\
    (forall kernel fx, float_of_Z nx = Ok fx -> ny = 0%Z ->
       _build_sensibility kernel self = Raise ZeroDivisionError) /\
    (forall kernel fx fy, float_of_Z nx = Ok fx -> float_of_Z ny = Ok fy ->
       nz = 0%Z ->
       _build_sensibility kernel self = Raise ZeroDivisionError) /\
    (forall kernel, (nx = 0 \/ ny = 0 \/ nz = 0)%Z ->
       _build_sensibility kernel self = Raise ZeroDivisionError \/
       _build_sensibility kernel self = Raise OverflowError).
Proof.
  intros H. eexists. split; [apply init_Ok; exact H|].
  split; [reflexivity|]. split; [reflexivity|].
  unfold _build_sensibility.
  cbn [_nx _ny _nz _mod_x1 _mod_x2 _mod_y1 _mod_y2 _mod_z1 _mod_z2].
  split; [|split; [|split]].
  - intros kernel ->. now rewrite py_div_by_zero.
  - intros kernel fx Hx ->.
    destruct (py_div_int (x2 - x1) nx) as [ex|e] eqn:Ex; cbn [bind].
    + now rewrite py_div_by_zero.
    + apply py_div_int_raises in Ex as [[_ Ho] | [-> _]];
        [congruence | reflexivity].
  - intros kernel fx fy Hx Hy ->.
    destruct (py_div_int (x2 - x1) nx) as [ex|e] eqn:Ex; cbn [bind].
    + destruct (py_div_int (y2 - y1) ny) as [ey|e] eqn:Ey; cbn [bind].
      * now rewrite py_div_by_zero.
      * apply py_div_int_raises in Ey as [[_ Ho] | [-> _]];
          [congruence | reflexivity].
    + apply py_div_int_raises in Ex as [[_ Ho] | [-> _]];
        [congruence | reflexivity].
  - intros kernel Hz.
    destruct (py_div_int (x2 - x1) nx) as [ex|e] eqn:Ex; cbn [bind];
      [|apply py_div_int_raises in Ex as [[-> _] | [-> _]]; auto].
    destruct (py_div_int (y2 - y1) ny) as [ey|e] eqn:Ey; cbn [bind];
      [|apply py_div_int_raises in Ey as [[-> _] | [-> _]]; auto].
    destruct (py_div_int (z2 - z1) nz) as [ez|e] eqn:Ez; cbn [bind];
      [|apply py_div_int_raises in Ez as [[-> _] | [-> _]]; auto].
    exfalso. destruct Hz as [-> | [-> | ->]].
    + rewrite py_div_by_zero in Ex. discriminate Ex.
    + rewrite py_div_by_zero in Ey. discriminate Ey.
    + rewrite py_div_by_zero in Ez. discriminate Ez.
Qed.

Lemma grid_is_stored_unchecked_witness :
  exists self,
    __init__ 1 0 0 1 0 1 1 0 1 (Some one_obs) None None None None None None
      = Ok self /\
    (_nx self, _ny self, _nz self) = (1, 0, 1)%Z /\
    (_mod_x1 self, _mod_x2 self, _mod_y1 self, _mod_y2 self,
     _mod_z1 self, _mod_z2 self) = (1, 0, 0, 1, 0, 1)%float /\
    (forall kernel,
       _build_sensibility kernel self = Raise ZeroDivisionError).
Proof.
  destruct (grid_is_stored_unchecked 1 0 0 1 0 1 1 0 1
              (Some one_obs) None None None None None None eq_refl)
    as (self & Hi & Hn & Hb & _ & Hy & _).
  exists self. split; [exact Hi|]. split; [exact Hn|]. split; [exact Hb|].
  intros kernel. exact (Hy kernel 1%float eq_refl eq_refl).
Defined.

(** A count too large for a float is reported before a zero count that
    follows it. *)
Example overflow_comes_before_zero_division kernel :
  float_of_Z (10 ^ 400) = Raise OverflowError /\
  _build_sensibility kernel (gz_only 0 1 0 1 0 1 (10 ^ 400) 0 1 one_obs)
    = Raise OverflowError.
Proof. split; vm_compute; reflexivity. Qed.

(** * The first-derivative matrix *)

(** ** Assignment into a matrix *)

Lemma length_list_set (A : Type) (i : nat) (x : A) (l : list A) :
  length (list_set i x l) = length l.
Proof.
  revert i. induction l as [|h t IH]; intros [|i]; simpl; auto.
Qed.

Lemma nth_error_list_set (A : Type) (i c : nat) (x : A) (l : list A) :
  nth_error (list_set i x l) c =
  if (c =? i) && (i <? length l) then Some x else nth_error l c.
Proof.
  revert i c. induction l as [|h t IH]; intros [|i] [|c]; simpl; auto;
    try (now rewrite andb_false_r).
Qed.

Lemma list_set_middle (A : Type) (l1 l2 : list A) (x y : A) :
  list_set (length l1) x (l1 ++ y :: l2) = l1 ++ x :: l2.
Proof.
  induction l1 as [|h t IH]; simpl; [reflexivity|]. now rewrite IH.
Qed.

Lemma nth_error_middle (A : Type) (l1 l2 : list A) (y : A) :
  nth_error (l1 ++ y :: l2) (length l1) = Some y.
Proof.
  induction l1 as [|h t IH]; simpl; auto.
Qed.

Lemma setitem2_middle (done rest : matrix) (row : list float) (c : nat) (v : float) :
  c < length row ->
  setitem2 (done ++ row :: rest) (length done) c v =
  Ok (done ++ list_set c v row :: rest).
Proof.
  intros Hc. unfold setitem2. rewrite nth_error_middle.
  apply Nat.ltb_lt in Hc. rewrite Hc. now rewrite list_set_middle.
Qed.

Lemma nth_error_unit_row (n p q c : nat) :
  nth_error (unit_row n p q) c =
  if c <? n then
    Some (if c =? p then 1%float
          else if c =? q then (-1)%float else 0%float)
  else None.
Proof.
  unfold unit_row. rewrite nth_error_map, nth_error_seq.
  destruct (c <? n); reflexivity.
Qed.

Lemma length_unit_row (n p q : nat) : length (unit_row n p q) = n.
Proof. unfold unit_row. now rewrite length_map, length_seq. Qed.

(** The two assignments of [fd_emit] turn a zero row into a unit row. *)
Lemma unit_row_assigned (n p q : nat) :
  p < n -> q < n -> p <> q ->
  list_set q (-1)%float (list_set p 1%float (zrow n)) = unit_row n p q.
Proof.
  intros Hp Hq Hpq. apply nth_error_ext. intros c.
  rewrite !nth_error_list_set, nth_error_unit_row, length_list_set.
  unfold zrow. rewrite repeat_length.
  apply Nat.ltb_lt in Hp as Hp'. apply Nat.ltb_lt in Hq as Hq'.
  rewrite Hp', Hq', !andb_true_r.
  destruct (c =? q) eqn:Eq.
  - apply Nat.eqb_eq in Eq. subst c. rewrite Hq'.
    destruct (q =? p) eqn:E; [apply Nat.eqb_eq in E; lia | reflexivity].
  - destruct (c =? p) eqn:Ep.
    + apply Nat.eqb_eq in Ep. subst c. now rewrite Hp'.
    + destruct (c <? n) eqn:Ec.
      * apply nth_error_repeat. now apply Nat.ltb_lt.
      * apply nth_error_None. rewrite repeat_length.
        apply Nat.ltb_ge in Ec. exact Ec.
Qed.

(** ** The loops of [_build_first_deriv] *)

Lemma fd_inv_eq (P : nat) (done done' : matrix) (m m' : nat) (s : fd_state) :
  done = done' -> m = m' -> fd_inv P done m s -> fd_inv P done' m' s.
Proof. now intros -> ->. Qed.

Lemma emits_emit (P stride : nat) :
  0 < stride ->
  emits P (fd_emit stride) (fun p => [unit_row P p (p + stride)]) 1
    (fun p => p + stride < P).
Proof.
  intros Hs done m s [Hm Hd] Hpre Hlen. simpl in Hlen.
  destruct m as [|m]; [lia|]. simpl in Hm.
  unfold fd_emit. rewrite Hm, Hd.
  rewrite setitem2_middle by (unfold zrow; rewrite repeat_length; lia).
  simpl. rewrite setitem2_middle
    by (rewrite length_list_set; unfold zrow; rewrite repeat_length; lia).
  simpl. eexists. split; [reflexivity|]. split; [|reflexivity].
  split; simpl.
  - rewrite unit_row_assigned by lia.
    rewrite <- app_assoc, Nat.sub_0_r. reflexivity.
  - rewrite length_app. reflexivity.
Qed.

Lemma emits_skip (P n : nat) :
  emits P (fd_skip n) (fun _ => []) n (fun _ => True).
Proof.
  intros done m s [Hm Hd] _ _. eexists. split; [reflexivity|].
  split; [|reflexivity]. simpl. rewrite app_nil_r, Nat.sub_0_r.
  now split.
Qed.

Lemma emits_seq (P : nat) b1 b2 r1 r2 a1 a2 (pre1 pre2 : nat -> Prop) :
  emits P b1 r1 a1 pre1 -> emits P b2 r2 a2 pre2 ->
  emits P (fun s => s' <- b1 s ;; b2 s')
    (fun p => r1 p ++ r2 (p + a1)) (a1 + a2)
    (fun p => pre1 p /\ pre2 (p + a1)).
Proof.
  intros H1 H2 done m s Hinv [Hp1 Hp2] Hlen.
  rewrite length_app in Hlen.
  destruct (H1 done m s Hinv Hp1) as (s1 & E1 & Hinv1 & Hq1); [lia|].
  rewrite <- Hq1 in Hp2, Hlen.
  destruct (H2 _ _ s1 Hinv1 Hp2) as (s2 & E2 & Hinv2 & Hq2); [lia|].
  exists s2. rewrite E1. simpl. split; [exact E2|]. split.
  - rewrite Hq1 in Hinv2. eapply fd_inv_eq; [| |exact Hinv2].
    + now rewrite app_assoc.
    + rewrite length_app. lia.
  - lia.
Qed.

Lemma loop_rows_S rows adv n p :
  loop_rows rows adv (S n) p = rows p ++ loop_rows rows adv n (p + adv).
Proof.
  unfold loop_rows. rewrite <- cons_seq, <- seq_shift. simpl.
  rewrite Nat.add_0_r. f_equal.
  rewrite flat_map_concat_map, map_map, <- flat_map_concat_map.
  apply flat_map_ext. intros t. f_equal. simpl. lia.
Qed.

Lemma emits_loop (P : nat) body rows adv (pre : nat -> Prop)
  (A : Type) (xs : list A) :
  emits P body rows adv pre ->
  emits P (for_each xs (fun _ => body))
    (loop_rows rows adv (length xs)) (length xs * adv)
    (fun p => forall t, t < length xs -> pre (p + t * adv)).
Proof.
  intros Hb. induction xs as [|x xs IH]; intros done m s Hinv Hpre Hlen.
  - exists s. split; [reflexivity|]. split; [|simpl; lia].
    eapply fd_inv_eq; [| |exact Hinv].
    + unfold loop_rows. simpl. now rewrite app_nil_r.
    + unfold loop_rows. simpl. lia.
  - simpl length in *. rewrite loop_rows_S in Hlen |- *.
    rewrite length_app in Hlen.
    destruct (Hb done m s Hinv) as (s1 & E1 & Hinv1 & Hq1).
    { specialize (Hpre 0 ltac:(lia)). simpl in Hpre.
      now rewrite Nat.add_0_r in Hpre. }
    { lia. }
    destruct (IH _ _ s1 Hinv1) as (s2 & E2 & Hinv2 & Hq2).
    { intros t Ht. rewrite Hq1.
      replace (param_i s + adv + t * adv) with (param_i s + S t * adv)
        by (simpl; lia).
      apply Hpre. lia. }
    { rewrite Hq1. lia. }
    exists s2. simpl. rewrite E1. simpl. split; [exact E2|]. split.
    + rewrite Hq1 in Hinv2. eapply fd_inv_eq; [| |exact Hinv2].
      * now rewrite app_assoc.
      * rewrite length_app. lia.
    + rewrite Hq2, Hq1. simpl. lia.
Qed.

Lemma emits_ext (P : nat) body rows rows' adv adv'
  (pre pre' : nat -> Prop) :
  emits P body rows adv pre ->
  (forall p, pre' p -> pre p /\ rows' p = rows p) -> adv' = adv ->
  emits P body rows' adv' pre'.
Proof.
  intros H Hp -> done m s Hinv Hpre Hlen.
  destruct (Hp _ Hpre) as [Hpre0 E]. rewrite E in Hlen |- *.
  now apply H.
Qed.

Lemma emits_xrange (P : nat) body rows adv (pre : nat -> Prop) (n : Z) :
  emits P body rows adv pre ->
  emits P (for_each (xrange n) (fun _ => body))
    (loop_rows rows adv (Z.to_nat n)) (Z.to_nat n * adv)
    (fun p => forall t, t < Z.to_nat n -> pre (p + t * adv)).
Proof.
  intros H. pose proof (emits_loop P body rows adv pre nat (xrange n) H) as L.
  unfold xrange in L |- *. rewrite length_seq in L. exact L.
Qed.

Lemma flat_map_singleton (A B : Type) (f : A -> B) (l : list A) :
  flat_map (fun x => [f x]) l = map f l.
Proof. induction l as [|x l IH]; simpl; [reflexivity|]. now rewrite IH. Qed.

Lemma index_bound (nx ny nz i j k : nat) :
  i < nx -> j < ny -> k < nz -> index nx ny i j k < nx * ny * nz.
Proof.
  intros Hi Hj Hk. unfold index.
  assert (H1 : j * nx + nx <= ny * nx).
  { replace (j * nx + nx) with (S j * nx) by (simpl; lia).
    apply Nat.mul_le_mono_r. lia. }
  assert (H2 : k * (nx * ny) + nx * ny <= nz * (nx * ny)).
  { replace (k * (nx * ny) + nx * ny) with (S k * (nx * ny)) by (simpl; lia).
    apply Nat.mul_le_mono_r. lia. }
  replace (k * nx * ny) with (k * (nx * ny)) by lia.
  replace (nx * ny * nz) with (nz * (nx * ny)) by lia.
  lia.
Qed.

Lemma index_step (nx ny i j k : nat) :
  index nx ny (i + 1) j k = index nx ny i j k + 1 /\
  index nx ny i (j + 1) k = index nx ny i j k + nx /\
  index nx ny i j (k + 1) = index nx ny i j k + nx * ny.
Proof. unfold index. repeat split; lia. Qed.

Lemma pred_mul_add (n m : nat) : 0 < n -> (n - 1) * m + m = n * m.
Proof. destruct n; simpl; [lia|]. rewrite Nat.sub_0_r. lia. Qed.

Section FirstDeriv.

Variables nx ny nz : Z.
Hypothesis Hnx : (0 < nx)%Z.
Hypothesis Hny : (0 < ny)%Z.
Hypothesis Hnz : (0 < nz)%Z.

Let NX := Z.to_nat nx.
Let NY := Z.to_nat ny.
Let NZ := Z.to_nat nz.
Let P := NX * NY * NZ.

Lemma fd_x_emits :
  emits P (fd_x nx ny nz) (fun _ => x_rows NX NY NZ) (NZ * (NY * NX))
    (fun p => p = 0).
Proof.
  assert (H1 : 0 < 1) by lia.
  pose proof (emits_xrange _ _ _ _ _ nz (emits_xrange _ _ _ _ _ ny
                (emits_seq _ _ _ _ _ _ _ _ _
                   (emits_xrange _ _ _ _ _ (nx - 1) (emits_emit P 1 H1))
                   (emits_skip P 1)))) as E.
  eapply emits_ext; [exact E| |].
  - intros p ->. split.
    + intros k Hk j Hj. split; [|exact I]. intros i Hi.
      assert (B := index_bound NX NY NZ (i + 1) j k).
      unfold index in B. fold NX NY NZ in Hk, Hj.
      replace (Z.to_nat (nx - 1)) with (NX - 1) in * by (unfold NX; lia).
      replace ((NX - 1) * 1 + 1) with NX by (unfold NX; lia).
      unfold P. specialize (B ltac:(lia) Hj Hk). lia.
    + unfold x_rows, loop_rows. fold NX NY NZ.
      apply flat_map_ext. intros k. apply flat_map_ext. intros j.
      rewrite app_nil_r, flat_map_singleton.
      replace (Z.to_nat (nx - 1)) with (NX - 1) by (unfold NX; lia).
      apply map_ext. intros i.
      replace ((NX - 1) * 1 + 1) with NX by (unfold NX; lia).
      fold P. unfold index. f_equal; lia.
  - replace (Z.to_nat (nx - 1)) with (NX - 1) by (unfold NX; lia).
    fold NX NY NZ. replace ((NX - 1) * 1 + 1) with NX by (unfold NX; lia).
    reflexivity.
Qed.


Lemma fd_y_emits :
  emits P (fd_y nx ny nz) (fun _ => y_rows NX NY NZ) (NZ * (NY * NX))
    (fun p => p = 0).
Proof.
  assert (H1 : 0 < NX) by (unfold NX; lia).
  pose proof (emits_xrange _ _ _ _ _ nz
                (emits_seq _ _ _ _ _ _ _ _ _
                   (emits_xrange _ _ _ _ _ (ny - 1)
                      (emits_xrange _ _ _ _ _ nx (emits_emit P NX H1)))
                   (emits_skip P NX))) as E.
  fold NX NY NZ in E.
  replace (Z.to_nat (ny - 1)) with (NY - 1) in E by (unfold NY; lia).
  rewrite Nat.mul_1_r, pred_mul_add in E by (unfold NY; lia).
  eapply emits_ext; [exact E| |reflexivity].
  intros p ->. split.
  - intros k Hk. split; [|exact I]. intros j Hj i Hi.
    assert (B := index_bound NX NY NZ i (j + 1) k).
    unfold index in B. unfold P.
    specialize (B Hi ltac:(lia) Hk). lia.
  - unfold y_rows, loop_rows.
    apply flat_map_ext. intros k. rewrite app_nil_r.
    apply flat_map_ext. intros j.
    rewrite flat_map_singleton. apply map_ext. intros i.
    fold P. unfold index. f_equal; lia.
Qed.

Lemma fd_z_emits :
  emits P (fd_z nx ny nz) (fun _ => z_rows NX NY NZ)
    ((NZ - 1) * (NY * NX)) (fun p => p = 0).
Proof.
  assert (HN : Z.to_nat (nx * ny) = NX * NY)
    by (unfold NX, NY; apply Z2Nat.inj_mul; lia).
  assert (H1 : 0 < Z.to_nat (nx * ny)).
  { rewrite HN. apply Nat.mul_pos_pos; [unfold NX | unfold NY]; lia. }
  pose proof (emits_xrange _ _ _ _ _ (nz - 1)
                (emits_xrange _ _ _ _ _ ny
                   (emits_xrange _ _ _ _ _ nx
                      (emits_emit P (Z.to_nat (nx * ny)) H1)))) as E.
  fold NX NY NZ in E.
  assert (HZ : Z.to_nat (nz - 1) = NZ - 1) by (unfold NZ; lia).
  eapply emits_ext; [exact E| |].
  - intros p ->. rewrite HN, HZ. split.
    + intros k Hk j Hj i Hi.
      assert (B := index_bound NX NY NZ i j (k + 1)).
      unfold index in B. unfold P.
      specialize (B Hi Hj ltac:(lia)). lia.
    + unfold z_rows, loop_rows.
      apply flat_map_ext. intros k. apply flat_map_ext. intros j.
      rewrite flat_map_singleton. apply map_ext. intros i.
      fold P. unfold index. f_equal; lia.
  - rewrite HZ. f_equal. lia.
Qed.

End FirstDeriv.

(** ** Unit rows *)

Lemma map_seq_zero (f : nat -> float) (a n : nat) :
  (forall c, a <= c < a + n -> f c = 0%float) ->
  map f (seq a n) = repeat 0%float n.
Proof.
  revert a. induction n as [|n IH]; intros a H; simpl; [reflexivity|].
  rewrite H by lia. f_equal. apply IH. intros c Hc. apply H. lia.
Qed.

(** A unit row is zeros, a [+1], zeros, a [-1], zeros. *)
Lemma unit_row_split (n p q : nat) :
  p < q -> q < n ->
  unit_row n p q =
  repeat 0%float p ++ [1%float] ++ repeat 0%float (q - p - 1)
    ++ [(-1)%float] ++ repeat 0%float (n - q - 1).
Proof.
  intros Hpq Hqn. unfold unit_row.
  replace n with (p + (1 + ((q - p - 1) + (1 + (n - q - 1))))) at 1 by lia.
  rewrite !seq_app, !map_app. simpl seq. simpl map.
  rewrite Nat.eqb_refl.
  replace (p + 1 + (q - p - 1)) with q by lia.
  rewrite Nat.eqb_refl.
  destruct (q =? p) eqn:E; [apply Nat.eqb_eq in E; lia|].
  rewrite !map_seq_zero; [reflexivity|..]; intros c Hc;
    (destruct (c =? p) eqn:E1; [apply Nat.eqb_eq in E1; lia|]);
    (destruct (c =? q) eqn:E2; [apply Nat.eqb_eq in E2; lia|]);
    reflexivity.
Qed.

Lemma sum_zeros (n : nat) (acc : float) :
  acc = 0%float \/ acc = 1%float ->
  fold_left PrimFloat.add (repeat 0%float n) acc = acc.
Proof.
  intros H. induction n as [|n IH]; simpl; [reflexivity|].
  destruct H as [-> | ->]; simpl in *; exact IH.
Qed.

Lemma row_sum_unit_row (n p q : nat) :
  p < q -> q < n -> row_sum (unit_row n p q) = 0%float.
Proof.
  intros Hpq Hqn. unfold row_sum. rewrite unit_row_split by assumption.
  rewrite !fold_left_app. simpl.
  rewrite (sum_zeros p) by now left. 
  change (0 + 1)%float with 1%float.
  rewrite (sum_zeros (q - p - 1)) by now right.
  change (1 + -1)%float with 0%float.
  apply sum_zeros. now left.
Qed.

Lemma filter_repeat_zero (v : float) (n : nat) :
  filter (PrimFloat.eqb v) (repeat 0%float n) =
  if PrimFloat.eqb v 0%float then repeat 0%float n else [].
Proof.
  induction n as [|n IH]; simpl.
  - now destruct (PrimFloat.eqb v 0).
  - rewrite IH. now destruct (PrimFloat.eqb v 0).
Qed.

Lemma occurrences_unit_row (n p q : nat) :
  p < q -> q < n ->
  occurrences 1%float (unit_row n p q) = 1 /\
  occurrences (-1)%float (unit_row n p q) = 1 /\
  occurrences 0%float (unit_row n p q) = n - 2.
Proof.
  intros Hpq Hqn. unfold occurrences.
  rewrite unit_row_split by assumption.
  rewrite !filter_app, !filter_repeat_zero. simpl.
  change (PrimFloat.eqb 1 0) with false.
  change (PrimFloat.eqb 1 1) with true.
  change (PrimFloat.eqb 1 (-1)) with false.
  change (PrimFloat.eqb (-1) 0) with false.
  change (PrimFloat.eqb (-1) 1) with false.
  change (PrimFloat.eqb (-1) (-1)) with true.
  change (PrimFloat.eqb 0 0) with true.
  change (PrimFloat.eqb 0 1) with false.
  change (PrimFloat.eqb 0 (-1)) with false.
  simpl. repeat split.
  rewrite !length_app, !repeat_length. lia.
Qed.

Lemma length_x_rows (nx ny nz : nat) :
  length (x_rows nx ny nz) = (nx - 1) * ny * nz.
Proof.
  unfold x_rows.
  rewrite (flat_map_constant_length (c := ny * (nx - 1))).
  - rewrite length_seq. lia.
  - intros k _. rewrite (flat_map_constant_length (c := nx - 1)).
    + now rewrite length_seq.
    + intros j _. now rewrite length_map, length_seq.
Qed.

Lemma length_y_rows (nx ny nz : nat) :
  length (y_rows nx ny nz) = (ny - 1) * nx * nz.
Proof.
  unfold y_rows.
  rewrite (flat_map_constant_length (c := (ny - 1) * nx)).
  - rewrite length_seq. lia.
  - intros k _. rewrite (flat_map_constant_length (c := nx)).
    + now rewrite length_seq.
    + intros j _. now rewrite length_map, length_seq.
Qed.

Lemma length_z_rows (nx ny nz : nat) :
  length (z_rows nx ny nz) = (nz - 1) * nx * ny.
Proof.
  unfold z_rows.
  rewrite (flat_map_constant_length (c := ny * nx)).
  - rewrite length_seq. lia.
  - intros k _. rewrite (flat_map_constant_length (c := nx)).
    + now rewrite length_seq.
    + intros j _. now rewrite length_map, length_seq.
Qed.

(** Every difference row pairs a parameter with its neighbour one step
    further along x, y or z. *)
Lemma difference_rows_inv (nx ny nz : nat) (row : list float) :
  In row (x_rows nx ny nz ++ y_rows nx ny nz ++ z_rows nx ny nz) ->
  exists i j k stride,
    i < nx /\ j < ny /\ k < nz /\
    (stride = 1 /\ i + 1 < nx \/ stride = nx /\ j + 1 < ny
     \/ stride = nx * ny /\ k + 1 < nz) /\
    0 < stride /\
    index nx ny i j k + stride < nx * ny * nz /\
    row = unit_row (nx * ny * nz) (index nx ny i j k)
            (index nx ny i j k + stride).
Proof.
  intros H. apply in_app_or in H as [H|H]; [|apply in_app_or in H as [H|H]].
  - unfold x_rows in H.
    apply in_flat_map in H as (k & Hk & H).
    apply in_flat_map in H as (j & Hj & H).
    apply in_map_iff in H as (i & <- & Hi).
    apply in_seq in Hk, Hj, Hi.
    destruct (index_step nx ny i j k) as (E & _ & _).
    exists i, j, k, 1. repeat split; try lia.
    + rewrite <- E. apply index_bound; lia.
    + now rewrite E.
  - unfold y_rows in H.
    apply in_flat_map in H as (k & Hk & H).
    apply in_flat_map in H as (j & Hj & H).
    apply in_map_iff in H as (i & <- & Hi).
    apply in_seq in Hk, Hj, Hi.
    destruct (index_step nx ny i j k) as (_ & E & _).
    exists i, j, k, nx. repeat split; try lia.
    + rewrite <- E. apply index_bound; lia.
    + now rewrite E.
  - unfold z_rows in H.
    apply in_flat_map in H as (k & Hk & H).
    apply in_flat_map in H as (j & Hj & H).
    apply in_map_iff in H as (i & <- & Hi).
    apply in_seq in Hk, Hj, Hi.
    destruct (index_step nx ny i j k) as (_ & _ & E).
    exists i, j, k, (nx * ny). repeat split; try lia.
    + apply Nat.mul_pos_pos; lia.
    + rewrite <- E. apply index_bound; lia.
    + now rewrite E.
Qed.

Lemma fd_inv_rewind (P : nat) (done : matrix) (m : nat) (s : fd_state) :
  fd_inv P done m s -> fd_inv P done m (fd_rewind s).
Proof. intros [H1 H2]. now split. Qed.

Lemma zeros_Ok (r c : nat) :
  zeros (Z.of_nat r) (Z.of_nat c) = Ok (repeat (zrow c) r).
Proof.
  unfold zeros, zrow.
  destruct (Z.ltb_spec (Z.of_nat r) 0); [lia|].
  destruct (Z.ltb_spec (Z.of_nat c) 0); [lia|].
  simpl. now rewrite !Nat2Z.id.
Qed.

(** What [_build_first_deriv] returns on a grid of positive counts. *)
Lemma build_first_deriv_Ok (self : PGrav) (nx ny nz : nat) :
  _nx self = Z.of_nat nx -> _ny self = Z.of_nat ny ->
  _nz self = Z.of_nat nz ->
  0 < nx -> 0 < ny -> 0 < nz ->
  _build_first_deriv self =
  Ok (x_rows nx ny nz ++ y_rows nx ny nz ++ z_rows nx ny nz).
Proof.
  intros Ex Ey Ez Hx Hy Hz. unfold _build_first_deriv.
  rewrite Ex, Ey, Ez.
  set (D := (nx - 1) * ny * nz + (ny - 1) * nx * nz + (nz - 1) * nx * ny).
  set (P := nx * ny * nz).
  replace ((Z.of_nat nx - 1) * Z.of_nat ny * Z.of_nat nz
           + (Z.of_nat ny - 1) * Z.of_nat nx * Z.of_nat nz
           + (Z.of_nat nz - 1) * Z.of_nat nx * Z.of_nat ny)%Z
    with (Z.of_nat D) by (unfold D; nia).
  replace (Z.of_nat nx * Z.of_nat ny * Z.of_nat nz)%Z
    with (Z.of_nat P) by (unfold P; nia).
  rewrite zeros_Ok. simpl bind.
  assert (Hzx : (0 < Z.of_nat nx)%Z) by lia.
  assert (Hzy : (0 < Z.of_nat ny)%Z) by lia.
  assert (Hzz : (0 < Z.of_nat nz)%Z) by lia.
  pose proof (fd_x_emits (Z.of_nat nx) (Z.of_nat ny) (Z.of_nat nz)
                Hzx Hzy Hzz) as EX.
  pose proof (fd_y_emits (Z.of_nat nx) (Z.of_nat ny) (Z.of_nat nz)
                Hzx Hzy Hzz) as EY.
  pose proof (fd_z_emits (Z.of_nat nx) (Z.of_nat ny) (Z.of_nat nz)
                Hzx Hzy Hzz) as EZ.
  rewrite !Nat2Z.id in EX, EY, EZ. fold P in EX, EY, EZ.
  pose proof (length_x_rows nx ny nz) as LX.
  pose proof (length_y_rows nx ny nz) as LY.
  pose proof (length_z_rows nx ny nz) as LZ.
  destruct (EX [] D {| first_deriv := repeat (zrow P) D;
                       deriv_i := 0; param_i := 0 |})
    as (sx & E1 & I1 & _); [now split | reflexivity | fold D; lia |].
  rewrite E1. simpl bind.
  destruct (EY _ _ (fd_rewind sx) (fd_inv_rewind _ _ _ _ I1))
    as (sy & E2 & I2 & _); [reflexivity | fold D; lia|].
  rewrite E2. simpl bind.
  destruct (EZ _ _ (fd_rewind sy) (fd_inv_rewind _ _ _ _ I2))
    as (sz & E3 & I3 & _); [reflexivity | fold D; lia|].
  rewrite E3. simpl bind.
  destruct I3 as [I3 _]. rewrite I3. f_equal.
  replace (D - length (x_rows nx ny nz) - length (y_rows nx ny nz)
           - length (z_rows nx ny nz)) with 0 by (fold D; lia).
  simpl. now rewrite app_nil_r, <- app_assoc.
Qed.

(** C4. On a grid of positive cell counts [_build_first_deriv] returns a
    matrix of [(nx-1)*ny*nz + nx*(ny-1)*nz + nx*ny*(nz-1)] rows and
    [nx*ny*nz] columns: the x, y and z blocks in this order. Every row
    holds exactly one [+1], at the index of a prism [(i, j, k)], exactly
    one [-1], at the index of its next neighbour along x, y or z, and
    zeros elsewhere; it sums to zero. *)
Theorem first_deriv_rows_are_differences (self : PGrav) (nx ny nz : nat) :
  _nx self = Z.of_nat nx -> _ny self = Z.of_nat ny ->
  _nz self = Z.of_nat nz ->
  0 < nx -> 0 < ny -> 0 < nz ->
  exists D,
    _build_first_deriv self = Ok D /\
    D = x_rows nx ny nz ++ y_rows nx ny nz ++ z_rows nx ny nz /\
    length D = (nx - 1) * ny * nz + nx * (ny - 1) * nz + nx * ny * (nz - 1) /\
    forall row, In row D ->
      length row = nx * ny * nz /\
      row_sum row = 0%float /\
      occurrences 1%float row = 1 /\
      occurrences (-1)%float row = 1 /\
      occurrences 0%float row = nx * ny * nz - 2 /\
      exists i j k i' j' k',
        i < nx /\ j < ny /\ k < nz /\ i' < nx /\ j' < ny /\ k' < nz /\
        ((i', j', k') = (i + 1, j, k) \/ (i', j', k') = (i, j + 1, k)
         \/ (i', j', k') = (i, j, k + 1)) /\
        index nx ny i j k < index nx ny i' j' k' /\
        forall c, c < nx * ny * nz ->
          nth_error row c =
          Some (if c =? index nx ny i j k then 1%float
                else if c =? index nx ny i' j' k' then (-1)%float
                     else 0%float).
Proof.
  intros Ex Ey Ez Hx Hy Hz.
  exists (x_rows nx ny nz ++ y_rows nx ny nz ++ z_rows nx ny nz).
  split; [now apply build_first_deriv_Ok|]. split; [reflexivity|]. split.
  - rewrite !length_app, length_x_rows, length_y_rows, length_z_rows. nia.
  - intros row Hrow.
    apply difference_rows_inv in Hrow
      as (i & j & k & stride & Hi & Hj & Hk & Hax & Hs & Hq & ->).
    destruct (index_step nx ny i j k) as (E1 & E2 & E3).
    destruct (occurrences_unit_row (nx * ny * nz) (index nx ny i j k)
                (index nx ny i j k + stride)) as (O1 & O2 & O3); [lia..|].
    split; [apply length_unit_row|].
    split; [apply row_sum_unit_row; lia|].
    split; [exact O1|]. split; [exact O2|]. split; [exact O3|].
    assert (Hnth : forall q, q = index nx ny i j k + stride ->
              forall c, c < nx * ny * nz ->
                nth_error (unit_row (nx * ny * nz) (index nx ny i j k)
                             (index nx ny i j k + stride)) c =
                Some (if c =? index nx ny i j k then 1%float
                      else if c =? q then (-1)%float else 0%float)).
    { intros q -> c Hc. rewrite nth_error_unit_row.
      apply Nat.ltb_lt in Hc. now rewrite Hc. }
    destruct Hax as [[-> Hn] | [[-> Hn] | [-> Hn]]].
    + exists i, j, k, (i + 1), j, k.
      repeat split; try assumption; try lia; auto.
    + exists i, j, k, i, (j + 1), k.
      repeat split; try assumption; try lia; auto.
    + exists i, j, k, i, j, (k + 1).
      repeat split; try assumption; try lia; auto.
Qed.

Lemma first_deriv_rows_are_differences_witness :
  exists D,
    _build_first_deriv cube_222 = Ok D /\
    D = x_rows 2 2 2 ++ y_rows 2 2 2 ++ z_rows 2 2 2 /\
    length D = (2 - 1) * 2 * 2 + 2 * (2 - 1) * 2 + 2 * 2 * (2 - 1) /\
    forall row, In row D ->
      length row = 2 * 2 * 2 /\
      row_sum row = 0%float /\
      occurrences 1%float row = 1 /\
      occurrences (-1)%float row = 1 /\
      occurrences 0%float row = 2 * 2 * 2 - 2 /\
      exists i j k i' j' k',
        i < 2 /\ j < 2 /\ k < 2 /\ i' < 2 /\ j' < 2 /\ k' < 2 /\
        ((i', j', k') = (i + 1, j, k) \/ (i', j', k') = (i, j + 1, k)
         \/ (i', j', k') = (i, j, k + 1)) /\
        index 2 2 i j k < index 2 2 i' j' k' /\
        forall c, c < 2 * 2 * 2 ->
          nth_error row c =
          Some (if c =? index 2 2 i j k then 1%float
                else if c =? index 2 2 i' j' k' then (-1)%float
                     else 0%float).
Proof.
  apply (first_deriv_rows_are_differences cube_222 2 2 2);
    solve [reflexivity | lia].
Defined.

(** * The sensitivity matrix *)

Lemma nth_error_flat_map_block (A B : Type) (f : A -> list B) (c : nat)
  (l : list A) (k r : nat) (a : A) :
  (forall x, In x l -> length (f x) = c) ->
  nth_error l k = Some a -> r < c ->
  nth_error (flat_map f l) (k * c + r) = nth_error (f a) r.
Proof.
  revert k. induction l as [|x l IH]; intros k Hc Hk Hr.
  - destruct k; discriminate Hk.
  - simpl. destruct k as [|k]; simpl in Hk.
    + inversion Hk; subst. simpl. apply nth_error_app1.
      rewrite Hc by now left. exact Hr.
    + rewrite nth_error_app2 by (rewrite Hc by (now left); simpl; lia).
      rewrite Hc by now left.
      replace (S k * c + r - c) with (k * c + r) by (simpl; lia).
      apply IH; [|exact Hk|exact Hr].
      intros y Hy. apply Hc. now right.
Qed.

Section Sensibility.

Variable prism_gravity :
  Field -> float -> float -> float -> float -> float -> float -> float ->
  float -> float -> float -> float.

(** A row has one entry per triple of prism origins. *)
Lemma length_line f ex ey ez xs ys zs p :
  length (line prism_gravity f ex ey ez xs ys zs p) =
  length zs * (length ys * length xs).
Proof.
  unfold line. destruct p as [[xp yp] zp].
  apply flat_map_constant_length. intros z _.
  apply flat_map_constant_length. intros y _.
  apply length_map.
Qed.

(** The entry for the [i]-th x origin, [j]-th y origin and [k]-th z origin
    stands in column [k * (#ys * #xs) + j * #xs + i]: z is the outermost
    loop, x the innermost. *)
Lemma nth_error_line f ex ey ez xs ys zs xp yp zp i j k x y z :
  nth_error xs i = Some x -> nth_error ys j = Some y ->
  nth_error zs k = Some z ->
  nth_error (line prism_gravity f ex ey ez xs ys zs (xp, yp, zp))
    (index (length xs) (length ys) i j k) =
  Some (prism_gravity f 1%float x (x + ex)%float y (y + ey)%float
          z (z + ez)%float xp yp zp).
Proof.
  intros Hx Hy Hz. unfold line, index.
  assert (Hi : i < length xs) by (apply nth_error_Some; congruence).
  assert (Hj : j < length ys) by (apply nth_error_Some; congruence).
  replace (k * length xs * length ys + j * length xs + i)
    with (k * (length ys * length xs) + (j * length xs + i)) by lia.
  rewrite nth_error_flat_map_block with (c := length ys * length xs) (a := z).
  - rewrite nth_error_flat_map_block with (c := length xs) (a := y).
    + now rewrite nth_error_map, Hx.
    + intros y' _. apply length_map.
    + exact Hy.
    + exact Hi.
  - intros z' _. apply flat_map_constant_length. intros y' _.
    apply length_map.
  - exact Hz.
  - assert (j * length xs + length xs <= length ys * length xs).
    { replace (j * length xs + length xs) with (S j * length xs)
        by (simpl; lia).
      apply Nat.mul_le_mono_r. lia. }
    lia.
Qed.

(** The shape of what [_build_sensibility] returns: one row per
    observation of a present channel, one column per triple of origins
    that [numpy.arange] produced. *)
Lemma build_sensibility_shape (self : PGrav) (S : matrix) :
  _build_sensibility prism_gravity self = Ok S ->
  exists g, prisms self = Ok g /\
    length S = total len self /\
    forall row, In row S ->
      length row =
      length (prism_zs g) * (length (prism_ys g) * length (prism_xs g)).
Proof.
  intros H. apply build_sensibility_Ok in H as (g & Hg & ->).
  exists g. split; [exact Hg|]. split; [apply length_rows_present|].
  intros row Hrow. apply in_flat_map in Hrow as (fc & _ & Hrow).
  unfold rows_of in Hrow. apply in_map_iff in Hrow as (i & <- & _).
  apply length_line.
Qed.

End Sensibility.

Lemma float_neq (a b : float) :
  PrimFloat.eqb a a = true -> PrimFloat.eqb a b = false -> a <> b.
Proof. intros Ha Hab E. rewrite <- E in Hab. congruence. Qed.

(** C1, at the unit cube cut into 49 cells along x: [numpy.arange] yields
    50 prism origins, because [(1 - 0)/((1 - 0)/49)] rounds to a float just
    above 49, and the single row of the sensitivity matrix has 50 columns
    although [nx*ny*nz = 49]. *)
Theorem sensibility_has_50_columns_on_cube_49x :
  forall kernel,
  exists S g,
    _build_sensibility kernel cube_49x = Ok S /\
    prisms cube_49x = Ok g /\
    length (prism_xs g) = 50 /\
    length S = total len cube_49x /\
    map (@length float) S = [50] /\
    (_nx cube_49x * _ny cube_49x * _nz cube_49x)%Z = 49%Z.
Proof.
  intros kernel. eexists. eexists.
  split; [vm_compute; reflexivity|].
  split; [vm_compute; reflexivity|].
  repeat split.
Qed.

(** C2, at the unit cube cut into 49 x 2 x 1 cells: the row has 100
    entries, and column 49 - the flattened index of the prism
    [(i, j, k) = (0, 1, 0)] - holds the kernel value of the 50th x origin
    and the first y origin, not that of the first x origin and the second
    y origin. *)
Theorem column_49_on_cube_49x2 :
  forall kernel,
  exists row g x0 x49 y0 y1 z0,
    _build_sensibility kernel cube_49x2 = Ok [row] /\
    prisms cube_49x2 = Ok g /\
    length row = 100 /\
    nth_error (prism_xs g) 0 = Some x0 /\
    nth_error (prism_xs g) 49 = Some x49 /\
    nth_error (prism_ys g) 0 = Some y0 /\
    nth_error (prism_ys g) 1 = Some y1 /\
    nth_error (prism_zs g) 0 = Some z0 /\
    x0 <> x49 /\ y0 <> y1 /\
    index 49 2 0 1 0 = 49 /\
    nth_error row 49 =
      Some (kernel Gz 1%float x49 (x49 + dx g)%float y0 (y0 + dy g)%float
              z0 (z0 + dz g)%float 0.5%float 0.5%float (-1)%float).
Proof.
  intros kernel. do 7 eexists.
  split; [vm_compute; reflexivity|].
  split; [vm_compute; reflexivity|].
  split; [reflexivity|].
  split; [reflexivity|]. split; [reflexivity|].
  split; [reflexivity|]. split; [reflexivity|]. split; [reflexivity|].
  split; [apply float_neq; reflexivity|].
  split; [apply float_neq; reflexivity|].
  split; reflexivity.
Qed.

(** * The depth weights *)

Lemma setitem2_Ok (m m' : matrix) (r c : nat) (v : float) :
  setitem2 m r c v = Ok m' -> r < length m /\ length m' = length m.
Proof.
  unfold setitem2. destruct (nth_error m r) as [row|] eqn:E; [|discriminate].
  destruct (c <? length row); [|discriminate].
  intros H. inversion H; subst. split.
  - apply nth_error_Some. congruence.
  - apply length_list_set.
Qed.

Section DepthWeights.

Variable float_pow : float -> float -> result float.

(** A round of the inner loop that completes has written inside the
    matrix. *)
Lemma dw_body_Ok depth ez z0 power w l w' l' :
  dw_body float_pow depth ez z0 power (w, l) = Ok (w', l') ->
  l < length w /\ length w' = length w /\ l' = l + 1.
Proof.
  unfold dw_body. intros H.
  apply bind_Ok_inv in H as (r & _ & H).
  apply bind_Ok_inv in H as (p & _ & H).
  apply bind_Ok_inv in H as (v & _ & H).
  apply bind_Ok_inv in H as (w1 & Hset & H).
  inversion H; subst. apply setitem2_Ok in Hset as [H1 H2]. auto.
Qed.

Lemma dw_inner_Ok (A : Type) (xs : list A) depth ez z0 power w l w' l' :
  for_each xs (fun _ wl => dw_body float_pow depth ez z0 power wl) (w, l)
    = Ok (w', l') ->
  l <= length w ->
  l' <= length w /\ length w' = length w /\ l' = l + length xs.
Proof.
  revert w l. induction xs as [|x xs IH]; intros w l H Hl; simpl in H.
  - inversion H; subst. simpl. lia.
  - apply bind_Ok_inv in H as ([w1 l1] & Hb & H).
    apply dw_body_Ok in Hb as (B1 & B2 & B3).
    apply IH in H as (I1 & I2 & I3); [|lia].
    simpl. lia.
Qed.

Lemma dw_outer_Ok (A : Type) (xs : list A) depths ez z0 power w l w' l' :
  for_each depths (fun depth wl =>
    for_each xs (fun _ wl => dw_body float_pow depth ez z0 power wl) wl)
    (w, l) = Ok (w', l') ->
  l <= length w ->
  l' <= length w /\ length w' = length w /\
  l' = l + length depths * length xs.
Proof.
  revert w l. induction depths as [|d depths IH]; intros w l H Hl;
    simpl in H.
  - inversion H; subst. simpl. lia.
  - apply bind_Ok_inv in H as ([w1 l1] & Hb & H).
    apply dw_inner_Ok in Hb as (B1 & B2 & B3); [|exact Hl].
    apply IH in H as (I1 & I2 & I3); [|lia].
    simpl. lia.
Qed.

Lemma identity_Ok (n : Z) (w : matrix) :
  identity n = Ok w -> length w = Z.to_nat n.
Proof.
  unfold identity. destruct (n <? 0)%Z; [discriminate|].
  intros H. inversion H. now rewrite length_map, length_seq.
Qed.

(** [depth_weights] returns only if the layers that [numpy.arange] made
    fit in the [nx*ny*nz] diagonal entries. *)
Lemma depth_weights_Ok (self : PGrav) (z0 power : float) (W : matrix) :
  depth_weights float_pow self z0 power = Ok W ->
  exists ez depths,
    py_div_int (_mod_z2 self - _mod_z1 self)%float (_nz self)
      = Ok ez /\
    arange (_mod_z1 self) (_mod_z2 self) ez = Ok depths /\
    length depths * Z.to_nat (_ny self * _nx self) <=
    Z.to_nat (_nx self * _ny self * _nz self) /\
    length W = Z.to_nat (_nx self * _ny self * _nz self).
Proof.
  unfold depth_weights. intros H.
  apply bind_Ok_inv in H as (w & Hw & H).
  apply bind_Ok_inv in H as (ez & Hez & H).
  apply bind_Ok_inv in H as (depths & Hd & H).
  apply bind_Ok_inv in H as ([w' l'] & Hloop & H).
  apply bind_Ok_inv in H as (mx & _ & H).
  apply identity_Ok in Hw.
  apply dw_outer_Ok in Hloop as (L1 & L2 & L3); [|lia].
  unfold xrange in L3. rewrite length_seq in L3.
  exists ez, depths. split; [exact Hez|]. split; [exact Hd|].
  inversion H; subst W. simpl. rewrite length_map. split; lia.
Qed.

End DepthWeights.

(** C5, at the unit cube cut into 49 layers: [numpy.arange] yields 50
    layer depths for the 49 diagonal entries, so [depth_weights] raises
    whatever [pow] does - an [IndexError] at the 50th layer when every
    weight can be computed - and returns no matrix. *)
Theorem depth_weights_raises_on_cube_49z :
  (exists depths,
      arange (_mod_z1 cube_49z) (_mod_z2 cube_49z) (1 / 49)%float
        = Ok depths /\ length depths = 50) /\
  (forall float_pow z0 power,
      exists e, depth_weights float_pow cube_49z z0 power = Raise e) /\
  depth_weights small_pow cube_49z 1 1 = Raise IndexError.
Proof.
  split; [eexists; split; [vm_compute; reflexivity | reflexivity]|].
  split; [|vm_compute; reflexivity].
  intros float_pow z0 power.
  destruct (depth_weights float_pow cube_49z z0 power) as [W|e] eqn:E;
    [|now exists e].
  apply depth_weights_Ok in E as (ez & depths & Hez & Hd & Hroom & _).
  exfalso. vm_compute in Hez. inversion Hez; subst ez. clear Hez.
  vm_compute in Hd. inversion Hd; subst depths. clear Hd.
  vm_compute in Hroom. lia.
Qed.

(** C6, on four layers between depth 0 and six times the smallest
    positive float: the cell size [dz] rounds to a third of the extent, so
    [numpy.arange] yields 3 layer depths for the 4 diagonal entries, and
    the last entry keeps the [1] that [numpy.identity] put there. With
    [z0 = 4] and [power = 1] - a positive power, and every layer argument
    [depth + 0.5*dz + z0] positive - the matrix is returned with the
    diagonal 0.5, 0.5, 0.5, 1: the entry of the deepest layer is larger
    than that of the first. *)
Theorem depth_weights_grow_on_thin_layers
  (float_pow : float -> float -> result float) :
  float_pow 2%float 1%float = Ok 2%float ->
  exists ez depths W,
    py_div_int (_mod_z2 thin_layers - _mod_z1 thin_layers)%float
      (_nz thin_layers) = Ok ez /\
    arange (_mod_z1 thin_layers) (_mod_z2 thin_layers) ez = Ok depths /\
    length depths = 3 /\
    (_nx thin_layers, _ny thin_layers, _nz thin_layers) = (1, 1, 4)%Z /\
    PrimFloat.ltb 0 1 = true /\
    forallb (fun depth => PrimFloat.ltb 0 (depth + 0.5 * ez + 4)) depths
      = true /\
    depth_weights float_pow thin_layers 4 1 = Ok W /\
    W = diag_matrix 4 (fun i => if i <? 3 then 0.5%float else 1%float) /\
    PrimFloat.ltb (nth 0 (nth 0 W []) 0%float) (nth 3 (nth 3 W []) 0%float)
      = true.
Proof.
  intros H. do 3 eexists.
  split; [vm_compute; reflexivity|].
  split; [vm_compute; reflexivity|].
  split; [reflexivity|]. split; [reflexivity|]. split; [reflexivity|].
  split; [reflexivity|].
  split; [vm_compute; rewrite H; vm_compute; reflexivity|].
  split; reflexivity.
Qed.

Lemma depth_weights_grow_on_thin_layers_witness :
  exists W,
    depth_weights small_pow thin_layers 4 1 = Ok W /\
    PrimFloat.ltb (nth 0 (nth 0 W []) 0%float) (nth 3 (nth 3 W []) 0%float)
      = true.
Proof.
  destruct (depth_weights_grow_on_thin_layers small_pow eq_refl)
    as (ez & depths & W & _ & _ & _ & _ & _ & _ & HW & _ & Hlt).
  exists W. split; [exact HW | exact Hlt].
Defined.

(** * The model at work: the cube [0,2]^3 in 2 x 2 x 2 cells *)

Example sensibility_cube_222 kernel :
  exists row,
    _build_sensibility kernel cube_222 = Ok [row] /\ length row = 8 /\
    nth_error row (index 2 2 1 0 1) =
      Some (kernel Gz 1 1 2 0 1 1 2 0.5 0.5 (-1))%float.
Proof.
  eexists. split; [vm_compute; reflexivity|]. split; reflexivity.
Qed.

Example data_cube_222 :
  _get_data_array cube_222 = [5%float] /\
  _get_data_cov cube_222 = [[0.25%float]].
Proof. split; reflexivity. Qed.

Example depth_weights_cube_222 :
  exists w,
    depth_weights small_pow cube_222 1 1 =
    Ok (map (fun i => diag_row 8 i (if i <? 4 then 1%float else w))
          (seq 0 8)) /\
    PrimFloat.ltb w 1 = true.
Proof.
  eexists. split; [vm_compute; reflexivity | reflexivity].
Qed.

(** * Further properties of the assemblers *)

Section SensibilityMore.

Variable prism_gravity :
  Field -> float -> float -> float -> float -> float -> float -> float ->
  float -> float -> float -> float.

(** The row of the sensitivity matrix that belongs to an observation. *)
Lemma sens_row_of_observation (self : PGrav) (g : Prisms) r f i :
  nth_error (observations self) r = Some (f, i) ->
  exists ch,
    channel self f = Some ch /\ truth ch = true /\ i < len ch /\
    nth_error (flat_map (rows_of prism_gravity g) (present self)) r =
    Some (line prism_gravity f (dx g) (dy g) (dz g)
            (prism_xs g) (prism_ys g) (prism_zs g) (loc ch i)).
Proof.
  intros Hr. unfold observations in Hr.
  destruct (nth_error_flat_map_aligned _ _ _
              (fun fc : Field * Channel =>
                 map (fun j => (fst fc, j)) (seq 0 (len (snd fc))))
              (rows_of prism_gravity g) (present self))
    with (r := r) (a := (f, i)) as ([f' ch] & j & Hin & Hl & Hrow).
  { intros fc _. unfold rows_of. now rewrite !length_map. }
  { exact Hr. }
  apply nth_error_map_seq in Hl as [Hj E]. simpl in E, Hj.
  inversion E; subst f' j; clear E.
  apply In_present in Hin as [Hc Ht].
  exists ch. split; [exact Hc|]. split; [exact Ht|]. split; [exact Hj|].
  rewrite Hrow. unfold rows_of. simpl. now apply nth_error_seq_map.
Qed.

Lemma build_sensibility_has_rows (self : PGrav) (S : matrix) :
  _build_sensibility prism_gravity self = Ok S -> 0 < total len self.
Proof.
  intros H.
  assert (HS : S <> []).
  { unfold _build_sensibility in H.
    repeat (apply bind_Ok_inv in H as (? & _ & H)).
    destruct (sens_rows _ _ _ _ _ _ _ _); [discriminate H|].
    inversion H. discriminate. }
  destruct (build_sensibility_shape _ _ _ H) as (g & _ & Hlen & _).
  rewrite <- Hlen. destruct S; [contradiction HS; reflexivity|].
  simpl. lia.
Qed.

(** X1. Whatever the grid, a sensitivity matrix that is returned has one
    row per observation of the present channels - at least one - and every
    row has one entry per triple of prism origins produced by
    [numpy.arange]; when these are [nx], [ny] and [nz] origins the rows
    have [nx*ny*nz] entries. *)
Theorem sensibility_matrix_shape (self : PGrav) (S : matrix) :
  _build_sensibility prism_gravity self = Ok S ->
  exists g,
    prisms self = Ok g /\
    length S = total len self /\ 0 < total len self /\
    (forall row, In row S ->
       length row =
       length (prism_zs g) * (length (prism_ys g) * length (prism_xs g))) /\
    (Z.of_nat (length (prism_xs g)) = _nx self ->
     Z.of_nat (length (prism_ys g)) = _ny self ->
     Z.of_nat (length (prism_zs g)) = _nz self ->
     forall row, In row S ->
       Z.of_nat (length row) = (_nx self * _ny self * _nz self)%Z).
Proof.
  intros H.
  destruct (build_sensibility_shape _ _ _ H) as (g & Hg & Hlen & Hrow).
  exists g. split; [exact Hg|]. split; [exact Hlen|]. split.
  - exact (build_sensibility_has_rows self S H).
  - split; [exact Hrow|]. intros <- <- <- row Hin.
    rewrite (Hrow _ Hin). lia.
Qed.

(** X2. In a returned sensitivity matrix, the row of the observation
    [(f, i)] holds, in column [k * (#ys * #xs) + j * #xs + i'] - z
    outermost, x innermost, counted with the numbers of origins that
    [numpy.arange] produced - the unit-density kernel of component [f] for
    the prism that starts at the [i']-th x, [j]-th y and [k]-th z origin
    and spans one cell size in each direction, seen from the location
    [loc(i)] of the channel. *)
Theorem sensibility_matrix_entry (self : PGrav) (S : matrix) (g : Prisms)
  r f i i' j k x y z :
  _build_sensibility prism_gravity self = Ok S ->
  prisms self = Ok g ->
  nth_error (observations self) r = Some (f, i) ->
  nth_error (prism_xs g) i' = Some x ->
  nth_error (prism_ys g) j = Some y ->
  nth_error (prism_zs g) k = Some z ->
  exists ch row,
    channel self f = Some ch /\ truth ch = true /\ i < len ch /\
    nth_error S r = Some row /\
    nth_error row
      (index (length (prism_xs g)) (length (prism_ys g)) i' j k) =
    Some (prism_gravity f 1%float x (x + dx g)%float y (y + dy g)%float
            z (z + dz g)%float
            (fst (fst (loc ch i))) (snd (fst (loc ch i))) (snd (loc ch i))).
Proof.
  intros HS Hg Hr Hx Hy Hz.
  apply build_sensibility_Ok in HS as (g' & Hg' & ->).
  assert (g' = g) by congruence. subst g'.
  destruct (sens_row_of_observation self g _ _ _ Hr)
    as (ch & Hc & Ht & Hi & Hrow).
  exists ch. eexists. split; [exact Hc|]. split; [exact Ht|].
  split; [exact Hi|]. split; [exact Hrow|].
  destruct (loc ch i) as [[xp yp] zp]. simpl.
  now apply nth_error_line.
Qed.

(** X3. Once the three cell sizes and the three arrays of prism origins
    are computed, [_build_sensibility] raises exactly when the present
    channels report no observation at all - the [IndexError] of the log
    line, which reads [shape[1]] of an array built from the empty list -
    and otherwise returns the rows of the present channels, stacked in
    declared order. The kernels and the location look-ups are taken to
    return. *)
Theorem build_sensibility_outcome (self : PGrav) (g : Prisms) :
  prisms self = Ok g ->
  _build_sensibility prism_gravity self =
  if total len self =? 0 then Raise IndexError
  else Ok (flat_map (rows_of prism_gravity g) (present self)).
Proof.
  intros Hg. destruct (total len self =? 0) eqn:Ht.
  - apply Nat.eqb_eq in Ht.
    destruct (_build_sensibility prism_gravity self) as [S|e] eqn:E.
    + pose proof (build_sensibility_has_rows self S E) as Hpos.
      lia.
    + unfold _build_sensibility, prisms in *.
      destruct (py_div_int _ (_nx self)) as [ex|];
        [|discriminate Hg].
      destruct (py_div_int _ (_ny self)) as [ey|];
        [|discriminate Hg].
      destruct (py_div_int _ (_nz self)) as [ez|];
        [|discriminate Hg].
      simpl in *.
      destruct (arange _ _ ex); [|discriminate Hg].
      destruct (arange _ _ ey); [|discriminate Hg].
      destruct (arange _ _ ez); [|discriminate Hg].
      simpl in *.
      destruct (sens_rows _ _ _ _ _ _ _ _);
        [symmetry; exact E | discriminate E].
  - apply Nat.eqb_neq in Ht.
    apply build_sensibility_returns; [exact Hg|].
    intros E. apply (f_equal (@length _)) in E.
    rewrite length_rows_present in E. simpl in E. lia.
Qed.

End SensibilityMore.

(** ** The data covariance *)

Lemma nth_diag_row (n i c : nat) (v : float) :
  nth c (diag_row n i v) 0%float =
  if (c =? i) && (c <? n) then v else 0%float.
Proof.
  unfold diag_row.
  destruct (c <? n) eqn:Hc.
  - apply Nat.ltb_lt in Hc. rewrite andb_true_r.
    apply nth_error_nth.
    now rewrite (nth_error_seq_map _ (fun c => if c =? i then v else 0%float)).
  - apply Nat.ltb_ge in Hc. rewrite andb_false_r.
    apply nth_overflow. now rewrite length_map, length_seq.
Qed.

Lemma length_diag_row (n i : nat) (v : float) : length (diag_row n i v) = n.
Proof. unfold diag_row. now rewrite length_map, length_seq. Qed.

Lemma nth_diag (v : vector) (r c : nat) :
  nth c (nth r (diag v) []) 0%float =
  if (r =? c) && (r <? length v) then nth r v 0%float else 0%float.
Proof.
  destruct (nth_error v r) as [x|] eqn:E.
  - assert (Hr : r < length v) by (apply nth_error_Some; congruence).
    rewrite (nth_error_nth (diag v) r [] (x := diag_row (length v) r x))
      by (rewrite nth_error_diag, E; reflexivity).
    rewrite nth_diag_row, (nth_error_nth v r 0%float E).
    apply Nat.ltb_lt in Hr as Hr'. rewrite Hr', andb_true_r.
    rewrite Nat.eqb_sym.
    destruct (r =? c) eqn:Erc; simpl; [|reflexivity].
    apply Nat.eqb_eq in Erc. subst c. now rewrite Hr'.
  - apply nth_error_None in E as Hr.
    rewrite (nth_overflow (diag v))
      by (unfold diag; rewrite length_map, length_combine, length_seq; lia).
    apply Nat.ltb_ge in Hr. rewrite Hr, andb_false_r. now destruct c.
Qed.

(** X4. The data covariance is a square matrix with as many rows as the
    present channels hold uncertainties; its entry [(r, c)] is the square
    of the [r]-th uncertainty when [r = c] and zero otherwise, so it is
    symmetric. *)
Theorem data_cov_is_diagonal (self : PGrav) :
  length (_get_data_cov self) = total (fun ch => length (std ch)) self /\
  (forall row, In row (_get_data_cov self) ->
     length row = total (fun ch => length (std ch)) self) /\
  (forall r c,
     r < total (fun ch => length (std ch)) self ->
     nth c (nth r (_get_data_cov self) []) 0%float =
     if r =? c
     then (nth r (flat_map (fun fc => std (snd fc)) (present self)) 0
           * nth r (flat_map (fun fc => std (snd fc)) (present self)) 0)%float
     else 0%float) /\
  (forall r c,
     nth c (nth r (_get_data_cov self) []) 0%float =
     nth r (nth c (_get_data_cov self) []) 0%float).
Proof.
  rewrite data_cov_present.
  set (stds := flat_map (fun fc => std (snd fc)) (present self)).
  assert (HM : length (map (fun s => (s * s)%float) stds) =
               total (fun ch => length (std ch)) self).
  { rewrite length_map. unfold stds, total. apply length_flat_map. }
  split; [|split; [|split]].
  - unfold diag. now rewrite length_map, length_combine, length_seq,
      Nat.min_id.
  - intros row Hin. unfold diag in Hin.
    apply in_map_iff in Hin as ([i x] & <- & _). simpl.
    now rewrite length_diag_row.
  - intros r c Hr. rewrite nth_diag, HM.
    apply Nat.ltb_lt in Hr as Hr'. rewrite Hr', andb_true_r.
    destruct (r =? c); [|reflexivity].
    apply nth_error_nth. rewrite nth_error_map.
    rewrite (nth_error_nth' stds 0%float); [reflexivity|].
    rewrite <- HM, length_map in Hr. exact Hr.
  - intros r c. rewrite !nth_diag.
    destruct (Nat.eq_dec r c) as [->|N]; [reflexivity|].
    apply Nat.eqb_neq in N as N1. rewrite N1.
    rewrite Nat.eqb_sym in N1. now rewrite N1.
Qed.

(** ** The order and the uniqueness of the difference rows *)

Lemma nth_error_nested_rows (A : Type) (h : nat -> nat -> nat -> A)
  (a b c i j k : nat) :
  i < a -> j < b -> k < c ->
  nth_error
    (flat_map (fun k => flat_map (fun j => map (fun i => h i j k) (seq 0 a))
                          (seq 0 b)) (seq 0 c))
    (k * (b * a) + j * a + i) = Some (h i j k).
Proof.
  intros Hi Hj Hk.
  assert (Hja : j * a + i < b * a).
  { assert (j * a + a <= b * a).
    { replace (j * a + a) with (S j * a) by (simpl; lia).
      apply Nat.mul_le_mono_r. lia. }
    lia. }
  rewrite <- Nat.add_assoc.
  rewrite nth_error_flat_map_block with (c := b * a) (a := k).
  - rewrite nth_error_flat_map_block with (c := a) (a := j).
    + now apply (nth_error_seq_map _ (fun i => h i j k)).
    + intros x _. now rewrite length_map, length_seq.
    + rewrite nth_error_seq. apply Nat.ltb_lt in Hj. now rewrite Hj.
    + exact Hi.
  - intros x _. rewrite (flat_map_constant_length (c := a)).
    + now rewrite length_seq.
    + intros y _. now rewrite length_map, length_seq.
  - rewrite nth_error_seq. apply Nat.ltb_lt in Hk. now rewrite Hk.
  - exact Hja.
Qed.

Lemma add_sub_l (n m : nat) : n + m - n = m.
Proof. lia. Qed.

(** X5. The rows of the first-derivative matrix come in a fixed order:
    within each block z is the outermost and x the innermost counter. The
    difference between prism [(i, j, k)] and its x neighbour is row
    [k*ny*(nx-1) + j*(nx-1) + i]; the y block starts after the
    [(nx-1)*ny*nz] rows of the x block and the z block after the
    [(ny-1)*nx*nz] rows of the y block. In particular every pair of
    neighbouring prisms has its row. *)
Theorem first_deriv_row_order (self : PGrav) (nx ny nz : nat) :
  _nx self = Z.of_nat nx -> _ny self = Z.of_nat ny ->
  _nz self = Z.of_nat nz ->
  0 < nx -> 0 < ny -> 0 < nz ->
  exists D,
    _build_first_deriv self = Ok D /\
    (forall i j k, i + 1 < nx -> j < ny -> k < nz ->
       nth_error D (k * (ny * (nx - 1)) + j * (nx - 1) + i) =
       Some (unit_row (nx * ny * nz) (index nx ny i j k)
               (index nx ny (i + 1) j k))) /\
    (forall i j k, i < nx -> j + 1 < ny -> k < nz ->
       nth_error D ((nx - 1) * ny * nz
                    + (k * ((ny - 1) * nx) + j * nx + i)) =
       Some (unit_row (nx * ny * nz) (index nx ny i j k)
               (index nx ny i (j + 1) k))) /\
    (forall i j k, i < nx -> j < ny -> k + 1 < nz ->
       nth_error D ((nx - 1) * ny * nz + (ny - 1) * nx * nz
                    + (k * (ny * nx) + j * nx + i)) =
       Some (unit_row (nx * ny * nz) (index nx ny i j k)
               (index nx ny i j (k + 1)))).
Proof.
  intros Ex Ey Ez Hx Hy Hz.
  exists (x_rows nx ny nz ++ y_rows nx ny nz ++ z_rows nx ny nz).
  split; [now apply build_first_deriv_Ok|].
  pose proof (length_x_rows nx ny nz) as LX.
  pose proof (length_y_rows nx ny nz) as LY.
  split; [|split].
  - intros i j k Hi Hj Hk. rewrite nth_error_app1.
    + unfold x_rows.
      apply (nth_error_nested_rows _
               (fun i j k => unit_row (nx * ny * nz) (index nx ny i j k)
                               (index nx ny (i + 1) j k))); lia.
    + apply nth_error_Some. unfold x_rows.
      rewrite (nth_error_nested_rows _
                 (fun i j k => unit_row (nx * ny * nz) (index nx ny i j k)
                                 (index nx ny (i + 1) j k))) by lia.
      discriminate.
  - intros i j k Hi Hj Hk.
    rewrite nth_error_app2 by (rewrite LX; apply Nat.le_add_r). rewrite LX.
    rewrite add_sub_l.
    rewrite nth_error_app1.
    + unfold y_rows.
      apply (nth_error_nested_rows _
               (fun i j k => unit_row (nx * ny * nz) (index nx ny i j k)
                               (index nx ny i (j + 1) k))); lia.
    + apply nth_error_Some. unfold y_rows.
      rewrite (nth_error_nested_rows _
                 (fun i j k => unit_row (nx * ny * nz) (index nx ny i j k)
                                 (index nx ny i (j + 1) k))) by lia.
      discriminate.
  - intros i j k Hi Hj Hk.
    rewrite nth_error_app2
      by (rewrite LX, <- Nat.add_assoc; apply Nat.le_add_r).
    rewrite LX.
    rewrite <- Nat.add_assoc, add_sub_l.
    rewrite nth_error_app2 by (rewrite LY; apply Nat.le_add_r). rewrite LY.
    rewrite add_sub_l.
    unfold z_rows.
    apply (nth_error_nested_rows _
             (fun i j k => unit_row (nx * ny * nz) (index nx ny i j k)
                             (index nx ny i j (k + 1)))); lia.
Qed.

Lemma NoDup_flat_map_disjoint (A B : Type) (f : A -> list B) (l : list A) :
  NoDup l ->
  (forall x, In x l -> NoDup (f x)) ->
  (forall x y b, In x l -> In y l -> In b (f x) -> In b (f y) -> x = y) ->
  NoDup (flat_map f l).
Proof.
  induction 1 as [|x l Hx Hl IH]; intros Hf Hd; simpl; [constructor|].
  apply NoDup_app.
  - apply Hf. now left.
  - apply IH.
    + intros y Hy. apply Hf. now right.
    + intros y z b Hy Hz. apply Hd; now right.
  - intros b Hb Hb'. apply in_flat_map in Hb' as (y & Hy & Hby).
    assert (x = y) by (apply (Hd x y b); auto; [now left | now right]).
    subst y. contradiction.
Qed.

(** Rows built from distinct triples of counters are distinct. *)
Lemma NoDup_nested_rows (A : Type) (h : nat -> nat -> nat -> A)
  (a b c : nat) :
  (forall i j k i' j' k',
     i < a -> j < b -> k < c -> i' < a -> j' < b -> k' < c ->
     h i j k = h i' j' k' -> i = i' /\ j = j' /\ k = k') ->
  NoDup (flat_map (fun k => flat_map (fun j => map (fun i => h i j k)
                                        (seq 0 a)) (seq 0 b)) (seq 0 c)).
Proof.
  intros Hinj.
  apply NoDup_flat_map_disjoint; [apply seq_NoDup| |].
  - intros k Hk. apply in_seq in Hk.
    apply NoDup_flat_map_disjoint; [apply seq_NoDup| |].
    + intros j Hj. apply in_seq in Hj.
      apply NoDup_map_NoDup_ForallPairs; [|apply seq_NoDup].
      intros i i' Hi Hi' E. apply in_seq in Hi, Hi'.
      apply (Hinj i j k i' j k); try lia. exact E.
    + intros j j' row Hj Hj' Hr Hr'. apply in_seq in Hj, Hj'.
      apply in_map_iff in Hr as (i & <- & Hi).
      apply in_map_iff in Hr' as (i' & E & Hi').
      apply in_seq in Hi, Hi'.
      apply (Hinj i' j' k i j k) in E; lia.
  - intros k k' row Hk Hk' Hr Hr'. apply in_seq in Hk, Hk'.
    apply in_flat_map in Hr as (j & Hj & Hr).
    apply in_flat_map in Hr' as (j' & Hj' & Hr').
    apply in_map_iff in Hr as (i & <- & Hi).
    apply in_map_iff in Hr' as (i' & E & Hi').
    apply in_seq in Hj, Hj', Hi, Hi'.
    apply (Hinj i' j' k' i j k) in E; lia.
Qed.

Lemma index_inj (nx ny i j k i' j' k' : nat) :
  i < nx -> i' < nx -> j < ny -> j' < ny ->
  index nx ny i j k = index nx ny i' j' k' ->
  i = i' /\ j = j' /\ k = k'.
Proof.
  unfold index. intros Hi Hi' Hj Hj' E.
  assert (E1 : nx * (k * ny + j) + i = nx * (k' * ny + j') + i') by lia.
  apply Nat.div_mod_unique in E1 as [E2 E3]; [|exact Hi|exact Hi'].
  assert (E4 : ny * k + j = ny * k' + j') by lia.
  apply Nat.div_mod_unique in E4 as [E5 E6]; [|exact Hj|exact Hj'].
  auto.
Qed.

(** A unit row determines the places of its [+1] and of its [-1]. *)
Lemma unit_row_inj (n p q p' q' : nat) :
  p < n -> q < n -> p <> q ->
  unit_row n p q = unit_row n p' q' -> p = p' /\ q = q'.
Proof.
  intros Hp Hq Hpq E.
  assert (Ep := f_equal (fun row => nth_error row p) E).
  assert (Eq := f_equal (fun row => nth_error row q) E).
  simpl in Ep, Eq. rewrite !nth_error_unit_row in Ep, Eq.
  apply Nat.ltb_lt in Hp, Hq. rewrite Hp in Ep. rewrite Hq in Eq.
  rewrite Nat.eqb_refl in Ep, Eq.
  destruct (q =? p) eqn:Eqp; [apply Nat.eqb_eq in Eqp; congruence|].
  destruct (p =? p') eqn:E1.
  - apply Nat.eqb_eq in E1. subst p'. split; [reflexivity|].
    rewrite Eqp in Eq.
    destruct (q =? q') eqn:E2; [now apply Nat.eqb_eq in E2|].
    discriminate Eq.
  - destruct (p =? q'); discriminate Ep.
Qed.

Lemma In_x_rows (nx ny nz : nat) (row : list float) :
  In row (x_rows nx ny nz) ->
  exists i j k, i + 1 < nx /\ j < ny /\ k < nz /\
    row = unit_row (nx * ny * nz) (index nx ny i j k)
            (index nx ny i j k + 1).
Proof.
  unfold x_rows. intros H.
  apply in_flat_map in H as (k & Hk & H).
  apply in_flat_map in H as (j & Hj & H).
  apply in_map_iff in H as (i & <- & Hi). apply in_seq in Hk, Hj, Hi.
  destruct (index_step nx ny i j k) as (E & _ & _).
  exists i, j, k. rewrite E. repeat split; lia.
Qed.

Lemma In_y_rows (nx ny nz : nat) (row : list float) :
  In row (y_rows nx ny nz) ->
  exists i j k, i < nx /\ j + 1 < ny /\ k < nz /\
    row = unit_row (nx * ny * nz) (index nx ny i j k)
            (index nx ny i j k + nx).
Proof.
  unfold y_rows. intros H.
  apply in_flat_map in H as (k & Hk & H).
  apply in_flat_map in H as (j & Hj & H).
  apply in_map_iff in H as (i & <- & Hi). apply in_seq in Hk, Hj, Hi.
  destruct (index_step nx ny i j k) as (_ & E & _).
  exists i, j, k. rewrite E. repeat split; lia.
Qed.

Lemma In_z_rows (nx ny nz : nat) (row : list float) :
  In row (z_rows nx ny nz) ->
  exists i j k, i < nx /\ j < ny /\ k + 1 < nz /\
    row = unit_row (nx * ny * nz) (index nx ny i j k)
            (index nx ny i j k + nx * ny).
Proof.
  unfold z_rows. intros H.
  apply in_flat_map in H as (k & Hk & H).
  apply in_flat_map in H as (j & Hj & H).
  apply in_map_iff in H as (i & <- & Hi). apply in_seq in Hk, Hj, Hi.
  destruct (index_step nx ny i j k) as (_ & _ & E).
  exists i, j, k. rewrite E. repeat split; lia.
Qed.

Lemma NoDup_difference_rows (nx ny nz : nat) :
  NoDup (x_rows nx ny nz ++ y_rows nx ny nz ++ z_rows nx ny nz).
Proof.
  assert (Hinj : forall s i j k i' j' k',
            0 < s ->
            i < nx -> j < ny -> k < nz -> i' < nx -> j' < ny -> k' < nz ->
            index nx ny i j k + s < nx * ny * nz ->
            unit_row (nx * ny * nz) (index nx ny i j k)
              (index nx ny i j k + s) =
            unit_row (nx * ny * nz) (index nx ny i' j' k')
              (index nx ny i' j' k' + s) ->
            i = i' /\ j = j' /\ k = k').
  { intros s i j k i' j' k' Hs Hi Hj Hk Hi' Hj' Hk' Hb E.
    apply unit_row_inj in E as [E _]; [|lia..].
    now apply index_inj in E. }
  apply NoDup_app; [|apply NoDup_app|].
  - unfold x_rows. apply NoDup_nested_rows.
    intros i j k i' j' k' Hi Hj Hk Hi' Hj' Hk' E.
    destruct (index_step nx ny i j k) as (E1 & _ & _).
    destruct (index_step nx ny i' j' k') as (E1' & _ & _).
    rewrite E1, E1' in E. apply (Hinj 1) in E; try lia.
    rewrite <- E1. apply index_bound; lia.
  - unfold y_rows. apply NoDup_nested_rows.
    intros i j k i' j' k' Hi Hj Hk Hi' Hj' Hk' E.
    destruct (index_step nx ny i j k) as (_ & E1 & _).
    destruct (index_step nx ny i' j' k') as (_ & E1' & _).
    rewrite E1, E1' in E. apply (Hinj nx) in E; try lia.
    rewrite <- E1. apply index_bound; lia.
  - unfold z_rows. apply NoDup_nested_rows.
    intros i j k i' j' k' Hi Hj Hk Hi' Hj' Hk' E.
    destruct (index_step nx ny i j k) as (_ & _ & E1).
    destruct (index_step nx ny i' j' k') as (_ & _ & E1').
    rewrite E1, E1' in E.
    assert (0 < nx * ny) by (apply Nat.mul_pos_pos; lia).
    apply (Hinj (nx * ny)) in E; try lia.
    rewrite <- E1. apply index_bound; lia.
  - intros row Hy Hz.
    apply In_y_rows in Hy as (i & j & k & Hi & Hj & Hk & ->).
    apply In_z_rows in Hz as (i' & j' & k' & Hi' & Hj' & Hk' & E).
    destruct (index_step nx ny i j k) as (_ & E1 & _).
    assert (B := index_bound nx ny nz i (j + 1) k Hi Hj Hk).
    apply unit_row_inj in E as [E2 E3]; [|lia..].
    assert (nx * 2 <= nx * ny) by (apply Nat.mul_le_mono_l; lia).
    lia.
  - intros row Hx Hyz.
    apply In_x_rows in Hx as (i & j & k & Hi & Hj & Hk & ->).
    destruct (index_step nx ny i j k) as (E1 & _ & _).
    assert (B := index_bound nx ny nz (i + 1) j k Hi Hj Hk).
    apply in_app_or in Hyz as [Hy|Hz].
    + apply In_y_rows in Hy as (i' & j' & k' & Hi' & Hj' & Hk' & E).
      apply unit_row_inj in E as [E2 E3]; lia.
    + apply In_z_rows in Hz as (i' & j' & k' & Hi' & Hj' & Hk' & E).
      apply unit_row_inj in E as [E2 E3]; [|lia..].
      assert (2 * 1 <= nx * ny) by (apply Nat.mul_le_mono; lia).
      lia.
Qed.

(** X6. No two rows of the first-derivative matrix are equal: a pair of
    neighbouring prisms is given one row, not more. *)
Theorem first_deriv_rows_are_distinct (self : PGrav) (nx ny nz : nat) :
  _nx self = Z.of_nat nx -> _ny self = Z.of_nat ny ->
  _nz self = Z.of_nat nz ->
  0 < nx -> 0 < ny -> 0 < nz ->
  exists D, _build_first_deriv self = Ok D /\ NoDup D.
Proof.
  intros Ex Ey Ez Hx Hy Hz.
  exists (x_rows nx ny nz ++ y_rows nx ny nz ++ z_rows nx ny nz).
  split; [now apply build_first_deriv_Ok | apply NoDup_difference_rows].
Qed.

(** ** The depth weights, when they are returned *)

Lemma diag_matrix_ext (n : nat) (d d' : nat -> float) :
  (forall i, i < n -> d i = d' i) -> diag_matrix n d = diag_matrix n d'.
Proof.
  intros H. unfold diag_matrix. apply map_ext_in. intros i Hi.
  apply in_seq in Hi. rewrite H by lia. reflexivity.
Qed.

Lemma length_diag_matrix (n : nat) (d : nat -> float) :
  length (diag_matrix n d) = n.
Proof. unfold diag_matrix. now rewrite length_map, length_seq. Qed.

Lemma nth_error_diag_matrix (n : nat) (d : nat -> float) (i : nat) :
  i < n -> nth_error (diag_matrix n d) i = Some (diag_row n i (d i)).
Proof.
  intros Hi. unfold diag_matrix.
  apply (nth_error_seq_map _ (fun i => diag_row n i (d i))). exact Hi.
Qed.

Lemma list_set_diag_row (n i : nat) (v w : float) :
  list_set i w (diag_row n i v) = diag_row n i w.
Proof.
  apply nth_error_ext. intros c.
  rewrite nth_error_list_set, length_diag_row. unfold diag_row.
  rewrite !nth_error_map, nth_error_seq.
  destruct (c <? n) eqn:Hc; simpl.
  - destruct (c =? i) eqn:E; simpl; [|reflexivity].
    apply Nat.eqb_eq in E. subst c. now rewrite Hc.
  - destruct (c =? i) eqn:E; simpl; [|reflexivity].
    apply Nat.eqb_eq in E. subst c. now rewrite Hc.
Qed.

(** Assigning a diagonal entry of a diagonal matrix. *)
Lemma setitem2_diag_matrix (n l : nat) (d : nat -> float) (v : float) :
  l < n ->
  setitem2 (diag_matrix n d) l l v =
  Ok (diag_matrix n (fun i => if i =? l then v else d i)).
Proof.
  intros Hl. unfold setitem2.
  rewrite nth_error_diag_matrix by exact Hl.
  rewrite length_diag_row. apply Nat.ltb_lt in Hl as Hl'. rewrite Hl'.
  f_equal. rewrite list_set_diag_row. apply nth_error_ext. intros c.
  rewrite nth_error_list_set, length_diag_matrix, Hl', andb_true_r.
  destruct (c =? l) eqn:E.
  - apply Nat.eqb_eq in E. subst c.
    rewrite nth_error_diag_matrix by exact Hl. now rewrite Nat.eqb_refl.
  - destruct (Nat.lt_ge_cases c n) as [Hc|Hc].
    + rewrite !nth_error_diag_matrix by exact Hc. now rewrite E.
    + transitivity (@None (list float)); [|symmetry];
        apply nth_error_None; now rewrite length_diag_matrix.
Qed.

Section DepthWeightsMore.

Variable float_pow : float -> float -> result float.

Lemma dw_body_layer_weight depth ez z0 power w l :
  dw_body float_pow depth ez z0 power (w, l) =
  (v <- layer_weight float_pow depth ez z0 power ;;
   w' <- setitem2 w l l v ;;
   Ok (w', l + 1)).
Proof.
  unfold dw_body, layer_weight.
  destruct (math_sqrt _) as [r|]; [|reflexivity]. simpl.
  destruct (float_pow r power) as [p|]; reflexivity.
Qed.

(** The inner loop: [n] rounds write one value [v] on [n] consecutive
    diagonal places. *)
Lemma dw_inner_diag (A : Type) (xs : list A) depth ez z0 power
  (P : nat) (d : nat -> float) (l : nat) (w' : matrix) (l' : nat) :
  for_each xs (fun _ wl => dw_body float_pow depth ez z0 power wl)
    (diag_matrix P d, l) = Ok (w', l') ->
  exists v,
    (xs <> [] -> layer_weight float_pow depth ez z0 power = Ok v) /\
    l' = l + length xs /\
    (xs <> [] -> l' <= P) /\
    w' = diag_matrix P
           (fun i => if (l <=? i) && (i <? l + length xs) then v else d i).
Proof.
  revert d l. induction xs as [|x xs IH]; intros d l H;
    cbn [for_each] in H.
  - inversion H; subst w' l'. exists 0%float.
    split; [intros N; now contradiction N|]. split; [simpl; lia|].
    split; [intros N; now contradiction N|].
    apply diag_matrix_ext. intros i _. simpl.
    destruct (l <=? i) eqn:E1; [|reflexivity]. simpl.
    apply Nat.leb_le in E1.
    destruct (i <? l + 0) eqn:E2; [apply Nat.ltb_lt in E2; lia|reflexivity].
  - apply bind_Ok_inv in H as ([w1 l1] & Hb & H).
    rewrite dw_body_layer_weight in Hb.
    apply bind_Ok_inv in Hb as (v & Hv & Hb).
    apply bind_Ok_inv in Hb as (w2 & Hset & Hb).
    inversion Hb; subst w2 l1; clear Hb.
    assert (Hl : l < P).
    { apply setitem2_Ok in Hset as [Hl _].
      now rewrite length_diag_matrix in Hl. }
    rewrite setitem2_diag_matrix in Hset by exact Hl.
    inversion Hset; subst w1; clear Hset.
    apply IH in H as (v' & Hv' & -> & Hle & ->).
    exists v. split; [intros _; exact Hv|].
    split; [simpl; lia|]. split.
    + intros _. destruct xs as [|y ys]; [simpl; lia|].
      assert (N : y :: ys <> []) by discriminate.
      specialize (Hle N). simpl in *. lia.
    + apply diag_matrix_ext. intros i Hi. simpl length.
      destruct (Nat.eq_dec i l) as [->|Ni].
      * rewrite Nat.eqb_refl.
        destruct (l + 1 <=? l) eqn:E1; [apply Nat.leb_le in E1; lia|].
        simpl. rewrite Nat.leb_refl.
        destruct (l <? l + S (length xs)) eqn:E2;
          [reflexivity | apply Nat.ltb_ge in E2; lia].
      * apply Nat.eqb_neq in Ni as Ni'. rewrite Ni'.
        destruct (l + 1 <=? i) eqn:E1.
        -- apply Nat.leb_le in E1.
           assert (E3 : (l <=? i) = true) by (apply Nat.leb_le; lia).
           rewrite E3. simpl.
           replace (l + S (length xs)) with (l + 1 + length xs) by lia.
           destruct (i <? l + 1 + length xs) eqn:E2; [|reflexivity].
           destruct xs as [|y ys].
           ++ apply Nat.ltb_lt in E2. simpl in E2. lia.
           ++ assert (N : y :: ys <> []) by discriminate.
              specialize (Hv' N). congruence.
        -- apply Nat.leb_gt in E1. simpl.
           assert (E3 : (l <=? i) = false) by (apply Nat.leb_gt; lia).
           now rewrite E3.
Qed.


(** The outer loop: the [k]-th depth writes its weight [wt k] on the
    [k]-th run of consecutive diagonal places. *)
Lemma dw_outer_diag (A : Type) (xs : list A) depths ez z0 power
  (P : nat) (d : nat -> float) (l : nat) (w' : matrix) (l' : nat) :
  for_each depths (fun depth wl =>
    for_each xs (fun _ wl => dw_body float_pow depth ez z0 power wl) wl)
    (diag_matrix P d, l) = Ok (w', l') ->
  exists wt : nat -> float,
    (xs <> [] -> forall k depth, nth_error depths k = Some depth ->
       layer_weight float_pow depth ez z0 power = Ok (wt k)) /\
    l' = l + length depths * length xs /\
    w' = diag_matrix P
           (fun i => if (l <=? i) && (i <? l + length depths * length xs)
                     then wt ((i - l) / length xs) else d i).
Proof.
  revert d l. induction depths as [|depth depths IH]; intros d l H;
    cbn [for_each] in H.
  - inversion H; subst w' l'. exists (fun _ => 0%float).
    split; [intros _ [|k] depth E; discriminate E|].
    split; [simpl; lia|].
    apply diag_matrix_ext. intros i _. simpl.
    destruct (Nat.leb_spec l i); destruct (Nat.ltb_spec i (l + 0));
      simpl; try reflexivity; lia.
  - apply bind_Ok_inv in H as ([w1 l1] & Hin & H).
    apply dw_inner_diag in Hin as (v & Hv & -> & _ & ->).
    apply IH in H as (wt' & Hwt' & -> & ->).
    exists (fun k => match k with O => v | S k' => wt' k' end).
    split; [|split].
    + intros N [|k] dep E; simpl in E.
      * inversion E; subst dep. now apply Hv.
      * now apply Hwt'.
    + simpl. lia.
    + apply diag_matrix_ext. intros i Hi. simpl length.
      set (n := length xs). set (m := length depths).
      replace (l + S m * n) with (l + n + m * n) by (simpl; lia).
      destruct (Nat.leb_spec (l + n) i) as [H1|H1];
        destruct (Nat.ltb_spec i (l + n + m * n)) as [H2|H2];
        destruct (Nat.leb_spec l i) as [H3|H3];
        destruct (Nat.ltb_spec i (l + n)) as [H4|H4];
        simpl; try reflexivity; try lia.
      * assert (Hn : n <> 0) by (intros E; rewrite E in *; lia).
        replace (i - l) with (i - (l + n) + 1 * n) by lia.
        rewrite Nat.div_add by exact Hn.
        now rewrite Nat.add_1_r.
      * rewrite Nat.div_small by lia. reflexivity.
Qed.

Lemma identity_diag_matrix (n : Z) (w : matrix) :
  identity n = Ok w -> w = diag_matrix (Z.to_nat n) (fun _ => 1%float).
Proof.
  unfold identity. destruct (n <? 0)%Z; [discriminate|].
  intros H. now inversion H.
Qed.

(** What [depth_weights] has computed when it returns. *)
Lemma depth_weights_structure (self : PGrav) (z0 power : float)
  (W : matrix) :
  depth_weights float_pow self z0 power = Ok W ->
  exists ez depths wt mx,
    py_div_int (_mod_z2 self - _mod_z1 self)%float (_nz self)
      = Ok ez /\
    arange (_mod_z1 self) (_mod_z2 self) ez = Ok depths /\
    length depths * Z.to_nat (_ny self * _nx self)
      <= Z.to_nat (_nx self * _ny self * _nz self) /\
    (0 < Z.to_nat (_ny self * _nx self) ->
     forall k depth, nth_error depths k = Some depth ->
       layer_weight float_pow depth ez z0 power = Ok (wt k)) /\
    array_max
      (diag_matrix (Z.to_nat (_nx self * _ny self * _nz self))
         (fun l => if l <? length depths * Z.to_nat (_ny self * _nx self)
                   then wt (l / Z.to_nat (_ny self * _nx self))
                   else 1%float)) = Ok mx /\
    W = map (map (fun w => (w / mx)%float))
          (diag_matrix (Z.to_nat (_nx self * _ny self * _nz self))
             (fun l => if l <? length depths
                                 * Z.to_nat (_ny self * _nx self)
                       then wt (l / Z.to_nat (_ny self * _nx self))
                       else 1%float)).
Proof.
  intros H.
  destruct (depth_weights_Ok _ _ _ _ _ H) as (ez0 & ds0 & Hez0 & Hd0 & Hroom & _).
  unfold depth_weights in H.
  apply bind_Ok_inv in H as (w & Hw & H).
  apply bind_Ok_inv in H as (ez & Hez & H).
  apply bind_Ok_inv in H as (depths & Hd & H).
  apply bind_Ok_inv in H as ([w' l'] & Hloop & H).
  apply bind_Ok_inv in H as (mx & Hmx & H).
  assert (ez0 = ez) by congruence. subst ez0.
  assert (ds0 = depths) by congruence. subst ds0.
  apply identity_diag_matrix in Hw. subst w.
  apply dw_outer_diag in Hloop as (wt & Hwt & -> & ->).
  unfold xrange in *. rewrite length_seq in *.
  set (nn := Z.to_nat (_ny self * _nx self)) in *.
  set (P := Z.to_nat (_nx self * _ny self * _nz self)) in *.
  simpl fst in *. cbn [Nat.leb andb Nat.add] in Hmx, H.
  assert (E : diag_matrix P
                (fun i => if i <? length depths * nn
                          then wt ((i - 0) / nn) else 1%float) =
              diag_matrix P
                (fun l => if l <? length depths * nn
                          then wt (l / nn) else 1%float)).
  { apply diag_matrix_ext. intros i _. now rewrite Nat.sub_0_r. }
  rewrite E in Hmx, H.
  exists ez, depths, wt, mx.
  split; [exact Hez|]. split; [exact Hd|]. split; [exact Hroom|].
  split.
  - intros Hpos k depth Hk. apply Hwt; [|exact Hk].
    intros N. apply (f_equal (@length _)) in N.
    rewrite length_seq in N. simpl in N. lia.
  - split; [exact Hmx|]. now inversion H.
Qed.

(** X7. When [depth_weights] returns, its result is a matrix of
    [nx*ny*nz] rows and columns obtained by dividing every entry of a raw
    matrix by the largest raw entry. The raw matrix is zero off the
    diagonal; its diagonal entry [l] is
    [1./(math.sqrt(depth + 0.5*dz + z0)**power)] for the depth of layer
    [l div (ny*nx)] - one value for all parameters of a layer - and [1]
    past the last layer that [numpy.arange] produced. *)
Theorem depth_weights_on_return (self : PGrav) (z0 power : float)
  (W : matrix) :
  depth_weights float_pow self z0 power = Ok W ->
  exists ez depths wt mx,
    py_div_int (_mod_z2 self - _mod_z1 self)%float (_nz self)
      = Ok ez /\
    arange (_mod_z1 self) (_mod_z2 self) ez = Ok depths /\
    length depths * Z.to_nat (_ny self * _nx self)
      <= Z.to_nat (_nx self * _ny self * _nz self) /\
    (0 < Z.to_nat (_ny self * _nx self) ->
     forall k depth, nth_error depths k = Some depth ->
       layer_weight float_pow depth ez z0 power = Ok (wt k)) /\
    array_max
      (diag_matrix (Z.to_nat (_nx self * _ny self * _nz self))
         (fun l => if l <? length depths * Z.to_nat (_ny self * _nx self)
                   then wt (l / Z.to_nat (_ny self * _nx self))
                   else 1%float)) = Ok mx /\
    length W = Z.to_nat (_nx self * _ny self * _nz self) /\
    (forall row, In row W ->
       length row = Z.to_nat (_nx self * _ny self * _nz self)) /\
    (forall r c,
       r < Z.to_nat (_nx self * _ny self * _nz self) ->
       c < Z.to_nat (_nx self * _ny self * _nz self) ->
       nth c (nth r W []) 0%float =
       PrimFloat.div
         (if r =? c
          then if r <? length depths * Z.to_nat (_ny self * _nx self)
               then wt (r / Z.to_nat (_ny self * _nx self))
               else 1%float
          else 0%float)
         mx).
Proof.
  intros H.
  destruct (depth_weights_structure _ _ _ _ H)
    as (ez & depths & wt & mx & Hez & Hd & Hroom & Hwt & Hmx & ->).
  exists ez, depths, wt, mx.
  split; [exact Hez|]. split; [exact Hd|]. split; [exact Hroom|].
  split; [exact Hwt|]. split; [exact Hmx|].
  set (nn := Z.to_nat (_ny self * _nx self)) in *.
  set (P := Z.to_nat (_nx self * _ny self * _nz self)) in *.
  split; [now rewrite length_map, length_diag_matrix|]. split.
  - intros row Hin. apply in_map_iff in Hin as (row0 & <- & Hin).
    unfold diag_matrix in Hin. apply in_map_iff in Hin as (i & <- & _).
    now rewrite length_map, length_diag_row.
  - intros r c Hr Hc.
    rewrite (nth_error_nth _ r []
               (x := map (fun w => (w / mx)%float)
                       (diag_row P r (if r <? length depths * nn
                                      then wt (r / nn) else 1%float))))
      by (rewrite nth_error_map, nth_error_diag_matrix by exact Hr;
          reflexivity).
    apply nth_error_nth. rewrite nth_error_map.
    rewrite (nth_error_nth' _ 0%float)
      by (rewrite length_diag_row; exact Hc).
    rewrite nth_diag_row. simpl.
    apply Nat.ltb_lt in Hc. rewrite Hc, andb_true_r.
    rewrite Nat.eqb_sym. reflexivity.
Qed.

(** X8. On a grid without cells ([nx*ny*nz <= 0]) [depth_weights] never
    returns a matrix: it raises, whatever [z0], [power] and [pow]. *)
Theorem depth_weights_raises_on_empty_grid (self : PGrav)
  (z0 power : float) :
  (_nx self * _ny self * _nz self <= 0)%Z ->
  exists e, depth_weights float_pow self z0 power = Raise e.
Proof.
  intros Hn.
  destruct (depth_weights float_pow self z0 power) as [W|e] eqn:E;
    [|now exists e].
  exfalso.
  destruct (depth_weights_structure _ _ _ _ E)
    as (ez & depths & wt & mx & _ & _ & _ & _ & Hmx & _).
  replace (Z.to_nat (_nx self * _ny self * _nz self)) with 0 in Hmx by lia.
  discriminate Hmx.
Qed.

End DepthWeightsMore.

(** * The plotting methods *)

(** ** Reshaping *)

Lemma firstn_add (A : Type) (n m : nat) (l : list A) :
  firstn (n + m) l = firstn n l ++ firstn m (skipn n l).
Proof.
  revert l. induction n as [|n IH]; intros l; simpl; [reflexivity|].
  destruct l as [|x l]; simpl.
  - now rewrite firstn_nil.
  - now rewrite IH.
Qed.

Lemma concat_chunks (A : Type) (r c : nat) (v : list A) :
  concat (chunks r c v) = firstn (r * c) v.
Proof.
  revert v. induction r as [|r IH]; intros v; simpl; [reflexivity|].
  now rewrite IH, firstn_add.
Qed.

Lemma length_chunks (A : Type) (r c : nat) (v : list A) :
  length (chunks r c v) = r.
Proof.
  revert v. induction r as [|r IH]; intros v; simpl; [reflexivity|].
  now rewrite IH.
Qed.

Lemma nth_error_chunks (A : Type) (r c k : nat) (v : list A) :
  k < r -> nth_error (chunks r c v) k = Some (firstn c (skipn (k * c) v)).
Proof.
  revert k v. induction r as [|r IH]; intros k v Hk; [lia|].
  destruct k as [|k]; simpl; [reflexivity|].
  rewrite IH by lia. now rewrite skipn_skipn, Nat.add_comm.
Qed.

Lemma nth_error_firstn_skipn (A : Type) (c o i : nat) (v : list A) :
  i < c -> nth_error (firstn c (skipn o v)) i = nth_error v (o + i).
Proof.
  intros Hi. rewrite nth_error_firstn.
  apply Nat.ltb_lt in Hi. rewrite Hi.
  rewrite nth_error_skipn. reflexivity.
Qed.

Lemma prod_nonneg (dims : list Z) :
  (forall d, In d dims -> (0 <= d)%Z) ->
  (0 <= fold_right Z.mul 1%Z dims)%Z.
Proof.
  induction dims as [|d dims IH]; intros H; simpl; [lia|].
  apply Z.mul_nonneg_nonneg; [apply H; now left|].
  apply IH. intros e He. apply H. now right.
Qed.

(** The sizes of a shape with wildcards filled in by [q]. *)
Lemma prod_filled_shape (q : nat) (dims : list Z) :
  (forall d, In d dims -> (-1 <= d)%Z) ->
  fold_right Nat.mul 1
    (map (fun d => if (d =? -1)%Z then q else Z.to_nat d) dims) =
  q ^ length (filter (fun d => (d =? -1)%Z) dims)
  * Z.to_nat (fold_right Z.mul 1%Z
                (filter (fun d => negb (d =? -1)%Z) dims)).
Proof.
  induction dims as [|d dims IH]; intros H; simpl; [reflexivity|].
  rewrite IH by (intros e He; apply H; now right).
  assert (Hd : (-1 <= d)%Z) by (apply H; now left).
  destruct (Z.eqb_spec d (-1)) as [E|E]; simpl.
  - lia.
  - rewrite Z2Nat.inj_mul; [lia | lia |].
    apply prod_nonneg. intros e He. apply filter_In in He as [He Hw].
    assert ((-1 <= e)%Z) by (apply H; now right).
    destruct (Z.eqb_spec e (-1)); [discriminate Hw | lia].
Qed.

Lemma filter_no_wildcard (dims : list Z) :
  (forall d, In d dims -> (0 <= d)%Z) ->
  filter (fun d => (d =? -1)%Z) dims = [].
Proof.
  induction dims as [|d ds IH]; intros Hpos; [reflexivity|]. simpl.
  assert (0 <= d)%Z by (apply Hpos; now left).
  destruct (Z.eqb_spec d (-1)); [lia|].
  apply IH. intros e He. apply Hpos. now right.
Qed.

(** A shape that [numpy.reshape] accepts has as many entries as the
    array. *)
Lemma infer_shape_Ok (size : nat) (dims : list Z) (ns : list nat) :
  infer_shape size dims = Ok ns ->
  fold_right Nat.mul 1 ns = size /\ length ns = length dims /\
  ((forall d, In d dims -> (0 <= d)%Z) -> ns = map Z.to_nat dims).
Proof.
  unfold infer_shape.
  destruct (existsb (fun d => (d <? -1)%Z) dims) eqn:Ex; [discriminate|].
  assert (Hge : forall d, In d dims -> (-1 <= d)%Z).
  { intros d Hd. destruct (Z.ltb_spec d (-1)) as [Hlt|]; [|assumption].
    assert (existsb (fun d => (d <? -1)%Z) dims = true).
    { apply existsb_exists. exists d. split; [exact Hd|].
      now apply Z.ltb_lt. }
    congruence. }
  set (known := fold_right Z.mul 1%Z
                  (filter (fun d => negb (d =? -1)%Z) dims)).
  assert (Hk : (0 <= known)%Z).
  { apply prod_nonneg. intros e He. apply filter_In in He as [He Hw].
    specialize (Hge e He).
    destruct (Z.eqb_spec e (-1)); [discriminate Hw | lia]. }
  destruct (length (filter (fun d => (d =? -1)%Z) dims)) as [|[|n]] eqn:W.
  - destruct (Z.eqb_spec (Z.of_nat size) known) as [E|]; [|discriminate].
    intros H. inversion H; subst ns; clear H.
    split; [|split; [apply length_map | reflexivity]].
    pose proof (prod_filled_shape 0 dims Hge) as F.
    rewrite W in F. fold known in F. rewrite <- E, Nat2Z.id in F.
    transitivity
      (fold_right Nat.mul 1
         (map (fun d => if (d =? -1)%Z then 0 else Z.to_nat d) dims));
      [|rewrite F; simpl; lia].
    f_equal. apply map_ext_in.
    intros d Hd. destruct (Z.eqb_spec d (-1)) as [Ed|]; [|reflexivity].
    exfalso. apply length_zero_iff_nil in W.
    assert (In d (filter (fun d => (d =? -1)%Z) dims))
      by (apply filter_In; split; [exact Hd | now apply Z.eqb_eq]).
    rewrite W in H. contradiction.
  - destruct (Z.eqb_spec known 0) as [|Hk0]; [discriminate|].
    destruct (Z.eqb_spec (Z.of_nat size mod known) 0) as [Hm|];
      [|discriminate].
    intros H. inversion H; subst ns; clear H.
    split; [|split; [apply length_map|]].
    + pose proof (prod_filled_shape
                    (Z.to_nat (Z.of_nat size / known)) dims Hge) as F.
      rewrite W in F. fold known in F. rewrite F. simpl.
      assert (Hq : (0 <= Z.of_nat size / known)%Z)
        by (apply Z.div_pos; lia).
      assert (Hd : Z.of_nat size
                   = (known * (Z.of_nat size / known))%Z)
        by (apply Z.div_exact; [lia | exact Hm]).
      rewrite Nat.mul_1_r. apply Nat2Z.inj.
      rewrite Nat2Z.inj_mul, !Z2Nat.id by lia. lia.
    + intros Hpos. rewrite (filter_no_wildcard dims Hpos) in W.
      discriminate W.
  - discriminate.
Qed.

Lemma reshape2_Ok (v : vector) (shape : Z * Z) (g : matrix) :
  reshape2 v shape = Ok g -> concat g = v.
Proof.
  unfold reshape2. intros H. apply bind_Ok_inv in H as (ns & Hns & H).
  apply infer_shape_Ok in Hns as (Hp & Hl & _).
  destruct ns as [|r [|c [|x ns]]]; try discriminate H.
  inversion H; subst g. rewrite concat_chunks.
  simpl in Hp. rewrite Nat.mul_1_r in Hp. rewrite Hp. apply firstn_all.
Qed.

Lemma reshape3_Ok (v : vector) (nx ny nz : nat) (shaped : list matrix) :
  reshape3 v (Z.of_nat nz) (Z.of_nat ny) (Z.of_nat nx) = Ok shaped ->
  length v = nz * (ny * nx) /\
  shaped = map (chunks ny nx) (chunks nz (ny * nx) v).
Proof.
  unfold reshape3. intros H. apply bind_Ok_inv in H as (ns & Hns & H).
  apply infer_shape_Ok in Hns as (Hp & _ & Hpos).
  rewrite Hpos in H, Hp
    by (intros d [<-|[<-|[<-|[]]]]; apply Nat2Z.is_nonneg).
  simpl in H, Hp. rewrite !Nat2Z.id in H, Hp.
  inversion H; subst shaped. split; [lia | reflexivity].
Qed.

(** ** [plot_adjustment] *)

Lemma combine_app_skipn (A B : Type) (l1 l2 : list A) (v : list B) :
  combine (l1 ++ l2) v = combine l1 v ++ combine l2 (skipn (length l1) v).
Proof.
  revert v. induction l1 as [|a l1 IH]; intros v; simpl; [reflexivity|].
  destruct v as [|b v]; simpl.
  - now destruct l2.
  - now rewrite IH.
Qed.

Lemma combine_repeat_firstn (A B : Type) (a : A) (n : nat) (v : list B) :
  combine (repeat a n) v = map (fun b => (a, b)) (firstn n v).
Proof.
  revert v. induction n as [|n IH]; intros v; simpl; [reflexivity|].
  destruct v as [|b v]; simpl; [reflexivity|]. now rewrite IH.
Qed.

(** The labels of the observations of one argument. *)
Lemma labels_chosen (f : Field) (c : option Channel) :
  map fst (flat_map (fun fc : Field * Channel =>
                       map (fun i => (fst fc, i)) (seq 0 (len (snd fc))))
             (chosen f c)) =
  repeat f (match c with
            | Some ch => if truth ch then len ch else 0
            | None => 0
            end).
Proof.
  unfold chosen. destruct c as [ch|]; [|reflexivity].
  destruct (truth ch); [|reflexivity]. simpl. rewrite app_nil_r, map_map.
  simpl. generalize 0 as a. induction (len ch) as [|n IH]; intros a; simpl;
    [reflexivity|]. now rewrite IH.
Qed.

(** One block of [plot_adjustment] draws the next [len] values of
    [adjusted] under the title of its component. *)
Lemma adj_block_Ok (f : Field) (c : option Channel) (shape : Z * Z)
  (rest rest' : vector) (figs figs' : list Contours) :
  adj_block f c shape (rest, figs) = Ok (rest', figs') ->
  plotted figs' =
    plotted figs ++
    combine (map fst (flat_map (fun fc : Field * Channel =>
                          map (fun i => (fst fc, i)) (seq 0 (len (snd fc))))
                        (chosen f c))) rest /\
  rest' = skipn (length (map fst (flat_map (fun fc : Field * Channel =>
                          map (fun i => (fst fc, i)) (seq 0 (len (snd fc))))
                        (chosen f c)))) rest /\
  map component figs' = map component figs ++ map fst (chosen f c).
Proof.
  rewrite labels_chosen, repeat_length. unfold adj_block, chosen.
  destruct c as [ch|].
  - destruct (truth ch).
    + simpl. intros H.
      apply bind_Ok_inv in H as (g & Hg & H).
      apply bind_Ok_inv in H as (gmin & _ & H).
      apply bind_Ok_inv in H as (amin & _ & H).
      apply bind_Ok_inv in H as (gmax & _ & H).
      apply bind_Ok_inv in H as (amax & _ & H).
      inversion H; subst rest' figs'; clear H.
      apply reshape2_Ok in Hg.
      split; [|split; [reflexivity|]].
      * unfold plotted. rewrite flat_map_app. simpl.
        now rewrite app_nil_r, Hg, combine_repeat_firstn.
      * now rewrite map_app.
    + intros H. inversion H; subst. simpl.
      now rewrite !app_nil_r.
  - intros H. inversion H; subst. simpl. now rewrite !app_nil_r.
Qed.

(** Drawing a further block keeps the drawn values in step with the
    adjusted data. *)
Lemma plotted_step (Lacc Lf : list Field) (adjusted rest rest' : vector)
  (p p' : list Contours) :
  plotted p' = plotted p ++ combine Lf rest ->
  rest' = skipn (length Lf) rest ->
  plotted p = combine Lacc adjusted ->
  rest = skipn (length Lacc) adjusted ->
  plotted p' = combine (Lacc ++ Lf) adjusted /\
  rest' = skipn (length (Lacc ++ Lf)) adjusted.
Proof.
  intros -> -> -> ->. split.
  - now rewrite combine_app_skipn.
  - rewrite skipn_skipn, length_app. f_equal. lia.
Qed.

Lemma observations_split (self : PGrav) :
  observations self =
  map (fun i => (Gz, i)) (seq 0 (gz_rows self)) ++ tensor_observations self.
Proof.
  unfold observations, tensor_observations, present_tensor, tensor_fields.
  rewrite present_blocks, flat_map_app. f_equal.
  - unfold chosen, gz_rows. destruct (_gz self) as [ch|]; [|reflexivity].
    destruct (truth ch); [|reflexivity]. simpl. now rewrite app_nil_r.
  - simpl. now rewrite app_nil_r.
Qed.

(** X9. [plot_adjustment] cuts the adjusted (predicted) data from its
    first entry on, in the order gxx, gxy, gxz, gyy, gyz, gzz of the
    present tensor components, and never skips the rows of gz: the value
    it draws for the [r]-th tensor observation is entry [r] of the
    adjusted data, whereas that observation is row [len(gz) + r] of the
    sensitivity matrix and of the data vector when gz is present. The
    plots show each observation's own predicted value only when gz
    contributes no row. *)
Theorem plot_adjustment_ignores_gz_rows (self : PGrav) (adjusted : vector)
  (shape : Z * Z) (figs : list Contours) :
  plot_adjustment self adjusted shape = Ok figs ->
  map component figs = map fst (present_tensor self) /\
  plotted figs = combine (map fst (tensor_observations self)) adjusted /\
  forall r f v, nth_error (plotted figs) r = Some (f, v) ->
    nth_error adjusted r = Some v /\
    exists i,
      nth_error (tensor_observations self) r = Some (f, i) /\
      nth_error (observations self) (gz_rows self + r) = Some (f, i).
Proof.
  unfold plot_adjustment. intros H.
  apply bind_Ok_inv in H as ([a1 g1] & H1 & H).
  apply bind_Ok_inv in H as ([a2 g2] & H2 & H).
  apply bind_Ok_inv in H as ([a3 g3] & H3 & H).
  apply bind_Ok_inv in H as ([a4 g4] & H4 & H).
  apply bind_Ok_inv in H as ([a5 g5] & H5 & H).
  apply bind_Ok_inv in H as ([a6 g6] & H6 & H).
  inversion H; subst figs; clear H. simpl snd.
  apply adj_block_Ok in H1 as (P1 & R1 & C1).
  apply adj_block_Ok in H2 as (P2 & R2 & C2).
  apply adj_block_Ok in H3 as (P3 & R3 & C3).
  apply adj_block_Ok in H4 as (P4 & R4 & C4).
  apply adj_block_Ok in H5 as (P5 & R5 & C5).
  apply adj_block_Ok in H6 as (P6 & R6 & C6).
  assert (HC : map component g6 = map fst (present_tensor self)).
  { rewrite C6, C5, C4, C3, C2, C1.
    unfold present_tensor, tensor_fields. simpl.
    now rewrite !map_app, app_nil_r, <- !app_assoc. }
  assert (HP : plotted g6 =
               combine (map fst (tensor_observations self)) adjusted).
  { unfold tensor_observations, present_tensor, tensor_fields.
    simpl flat_map. rewrite app_nil_r, !flat_map_app, !map_app.
    destruct (plotted_step [] _ adjusted adjusted a1 [] g1 P1 R1
                eq_refl eq_refl)
      as [Q1 S1].
    destruct (plotted_step _ _ adjusted a1 a2 g1 g2
                P2 R2 Q1 S1) as [Q2 S2].
    destruct (plotted_step _ _ adjusted a2 a3 g2 g3
                P3 R3 Q2 S2) as [Q3 S3].
    destruct (plotted_step _ _ adjusted a3 a4 g3 g4
                P4 R4 Q3 S3) as [Q4 S4].
    destruct (plotted_step _ _ adjusted a4 a5 g4 g5
                P5 R5 Q4 S4) as [Q5 S5].
    destruct (plotted_step _ _ adjusted a5 a6 g5 g6
                P6 R6 Q5 S5) as [Q6 S6].
    rewrite Q6. simpl. now rewrite <- !app_assoc. }
  split; [exact HC|]. split; [exact HP|].
  intros r f v Hr. rewrite HP in Hr.
  assert (Hlen : r < length (combine (map fst (tensor_observations self))
                               adjusted))
    by (apply nth_error_Some; congruence).
  rewrite length_combine, length_map in Hlen.
  destruct (nth_error (tensor_observations self) r) as [[f' i]|] eqn:Eo;
    [|apply nth_error_None in Eo; lia].
  destruct (nth_error adjusted r) as [v'|] eqn:Ea;
    [|apply nth_error_None in Ea; lia].
  assert (Hc : nth_error (combine (map fst (tensor_observations self))
                            adjusted) r = Some (f', v')).
  { clear - Eo Ea. revert r adjusted Eo Ea.
    induction (tensor_observations self) as [|o os IH];
      intros [|r] [|a adj] Eo Ea; simpl in *; try discriminate.
    - inversion Eo; inversion Ea; subst. reflexivity.
    - now apply IH. }
  rewrite Hc in Hr. inversion Hr; subst f' v'.
  split; [reflexivity|]. exists i. split; [reflexivity|].
  rewrite observations_split, nth_error_app2
    by (rewrite length_map, length_seq; lia).
  rewrite length_map, length_seq, add_sub_l. exact Eo.
Qed.

(** ** [plot_mean], [plot_std] and their 3D versions *)

Lemma length_firstn_skipn (A : Type) (c o : nat) (v : list A) :
  o + c <= length v -> length (firstn c (skipn o v)) = c.
Proof. intros H. rewrite length_firstn, length_skipn. lia. Qed.

(** The loop over the layers draws one figure per layer, titled with the
    running depth. *)
Lemma layers_loop ranged model Y X ez (layers : list matrix)
  (z z' : float) (figs0 figs : list LayerFigure) :
  for_each layers (layer_body ranged model Y X ez) (z, figs0)
    = Ok (z', figs) ->
  exists new,
    figs = figs0 ++ new /\ length new = length layers /\
    forall k layer, nth_error layers k = Some layer ->
      exists fig, nth_error new k = Some fig /\
        cells fig = transpose layer /\
        layer_z fig = z_after z ez k.
Proof.
  revert z figs0. induction layers as [|layer layers IH];
    intros z figs0 H; cbn [for_each] in H.
  - inversion H; subst. exists []. split; [now rewrite app_nil_r|].
    split; [reflexivity|]. intros [|k] l E; discriminate E.
  - apply bind_Ok_inv in H as ([z1 f1] & Hb & H).
    unfold layer_body in Hb.
    apply bind_Ok_inv in Hb as (range & _ & Hb).
    apply bind_Ok_inv in Hb as (ymin & _ & Hb).
    apply bind_Ok_inv in Hb as (ymax & _ & Hb).
    apply bind_Ok_inv in Hb as (xmin & _ & Hb).
    apply bind_Ok_inv in Hb as (xmax & _ & Hb).
    simpl in Hb. inversion Hb; subst z1 f1; clear Hb.
    apply IH in H as (new & -> & Hlen & Hk).
    eexists (_ :: new). split; [now rewrite <- app_assoc|].
    split; [simpl; now rewrite Hlen|].
    intros [|k] l E; simpl in E.
    + inversion E; subst l. eexists. split; [reflexivity|].
      split; reflexivity.
    + destruct (Hk _ _ E) as (fig & Hf & Hc & Hz).
      exists fig. split; [exact Hf|]. split; [exact Hc | exact Hz].
Qed.

(** The cell [(i, j)] of the transposed layer [k] of the reshaped and
    scaled vector is the parameter of index [k*nx*ny + j*nx + i]. *)
Lemma reshaped_cell (h : float -> float) (values : vector)
  (nx ny nz i j k : nat) :
  length values = nz * (ny * nx) -> i < nx -> j < ny -> k < nz ->
  exists m,
    nth_error values (index nx ny i j k) = Some m /\
    nth j (nth i
      (transpose
         (map (map h)
            (chunks ny nx (firstn (ny * nx) (skipn (k * (ny * nx)) values)))))
      []) 0%float = h m.
Proof.
  intros Hlen Hi Hj Hk.
  set (chunk := firstn (ny * nx) (skipn (k * (ny * nx)) values)).
  assert (Hroom : k * (ny * nx) + ny * nx <= length values).
  { rewrite Hlen. replace (k * (ny * nx) + ny * nx)
      with (S k * (ny * nx)) by (simpl; lia).
    apply Nat.mul_le_mono_r. lia. }
  assert (Hchunk : length chunk = ny * nx)
    by (apply length_firstn_skipn; exact Hroom).
  assert (Hjn : j * nx + nx <= ny * nx).
  { replace (j * nx + nx) with (S j * nx) by (simpl; lia).
    apply Nat.mul_le_mono_r. lia. }
  assert (Hidx : index nx ny i j k = k * (ny * nx) + (j * nx + i))
    by (unfold index; lia).
  destruct (nth_error values (index nx ny i j k)) as [m|] eqn:Em;
    [|apply nth_error_None in Em; rewrite Hidx in Em; lia].
  exists m. split; [reflexivity|].
  assert (Hrow : forall j', j' < ny ->
            nth_error (map (map h) (chunks ny nx chunk)) j' =
            Some (map h (firstn nx (skipn (j' * nx) chunk)))).
  { intros j' Hj'. now rewrite nth_error_map, nth_error_chunks. }
  assert (Hw : exists rest,
            map (map h) (chunks ny nx chunk) =
            map h (firstn nx (skipn 0 chunk)) :: rest).
  { destruct ny as [|ny']; [lia|]. simpl. eexists. reflexivity. }
  destruct Hw as (rest & Hw). unfold transpose. rewrite Hw.
  rewrite length_map, length_firstn_skipn by (rewrite Hchunk; lia).
  rewrite <- Hw.
  rewrite (nth_error_nth _ i []
             (x := map (fun r => nth i r 0%float)
                     (map (map h) (chunks ny nx chunk))))
    by (apply (nth_error_seq_map _
                 (fun i => map (fun r => nth i r 0%float)
                             (map (map h) (chunks ny nx chunk))));
        exact Hi).
  apply nth_error_nth. rewrite nth_error_map, (Hrow j Hj). simpl.
  f_equal. apply nth_error_nth. rewrite nth_error_map.
  rewrite nth_error_firstn_skipn by exact Hi.
  unfold chunk. rewrite nth_error_firstn_skipn by lia.
  rewrite <- Hidx, Em. reflexivity.
Qed.

(** X10. [plot_mean] and [plot_std] (the shared code with and without a
    colour range) return only if the vector holds [nx*ny*nz] values; they
    then draw [nz] figures, the [k]-th titled with the depth reached
    after [k] additions of [dz] to [z1], and its cell [(i, j)] is the
    value of the parameter with index [k*nx*ny + j*nx + i], times
    [0.001]: the plots read the solution in the order in which the
    assemblers number the prisms. *)
Theorem plot_layers_cells (ranged : bool) (self : PGrav) (values : vector)
  (nx ny nz : nat) (figs : list LayerFigure) :
  _nx self = Z.of_nat nx -> _ny self = Z.of_nat ny ->
  _nz self = Z.of_nat nz ->
  0 < nx -> 0 < ny -> 0 < nz ->
  plot_layers ranged self values = Ok figs ->
  length values = nx * ny * nz /\ length figs = nz /\
  exists ez,
    py_div_int (_mod_z2 self - _mod_z1 self)%float (_nz self)
      = Ok ez /\
    forall k, k < nz ->
      exists fig,
        nth_error figs k = Some fig /\
        layer_z fig = z_after (_mod_z1 self) ez k /\
        forall i j, i < nx -> j < ny ->
          exists m,
            nth_error values (index nx ny i j k) = Some m /\
            nth j (nth i (cells fig) []) 0%float = (m * milli)%float.
Proof.
  intros Ex Ey Ez Hx Hy Hz H. unfold plot_layers in H.
  apply bind_Ok_inv in H as (ex & _ & H).
  apply bind_Ok_inv in H as (ey & _ & H).
  apply bind_Ok_inv in H as (ez & Hez & H).
  apply bind_Ok_inv in H as (xs & _ & H).
  apply bind_Ok_inv in H as (ys & _ & H).
  destruct (meshgrid ys xs) as [Y X].
  apply bind_Ok_inv in H as (shaped & Hs & H).
  apply bind_Ok_inv in H as ([z' figs'] & Hloop & H).
  inversion H; subst figs; clear H. simpl snd.
  rewrite Ex, Ey, Ez in Hs. apply reshape3_Ok in Hs as [Hlen ->].
  apply layers_loop in Hloop as (new & -> & Hnew & Hk). simpl app.
  rewrite !length_map, length_chunks in Hnew.
  split; [rewrite Hlen; lia|]. split; [exact Hnew|].
  exists ez. split; [exact Hez|]. intros k Hkz.
  destruct (Hk k
              (map (map (fun v => (v * milli)%float))
                 (chunks ny nx
                    (firstn (ny * nx) (skipn (k * (ny * nx)) values)))))
    as (fig & Hf & Hc & Hzf).
  { rewrite !nth_error_map, nth_error_chunks by exact Hkz. reflexivity. }
  exists fig. split; [exact Hf|]. split; [exact Hzf|].
  intros i j Hi Hj. rewrite Hc.
  now apply reshaped_cell with (nz := nz).
Qed.

Lemma concat_reshaped (h : float -> float) (values : vector)
  (nx ny nz : nat) :
  concat (concat (map (map (map h))
                    (map (chunks ny nx) (chunks nz (ny * nx) values)))) =
  map h (firstn (nz * (ny * nx)) values).
Proof.
  revert values. induction nz as [|nz IH]; intros values; simpl;
    [reflexivity|].
  rewrite concat_app, IH, firstn_add, map_app. f_equal.
  rewrite <- concat_map, concat_chunks, firstn_firstn, Nat.min_id.
  reflexivity.
Qed.

(** Reshaping keeps the order of the entries, whatever the shape. *)
Lemma reshape3_flat (h : float -> float) (v : vector) (a b c : Z)
  (shaped : list matrix) :
  reshape3 v a b c = Ok shaped ->
  concat (concat (map (map (map h)) shaped)) = map h v.
Proof.
  unfold reshape3. intros H. apply bind_Ok_inv in H as (ns & Hns & H).
  apply infer_shape_Ok in Hns as (Hp & _ & _).
  destruct ns as [|p [|q [|r [|x ns]]]]; try discriminate H.
  inversion H; subst shaped. rewrite concat_reshaped.
  simpl in Hp. rewrite Nat.mul_1_r in Hp. rewrite Hp.
  now rewrite firstn_all.
Qed.

(** X11. Whatever the cell counts, when [plot_mean3d] and [plot_std3d]
    return, the cell scalars they hand over are the values times [0.001]
    in their own order - position [p] holds parameter [p] - for a grid of
    dimensions [(nx+1, ny+1, nz+1)], and none of the three coordinate
    arrays is empty. With counts that are not negative they return only
    if the vector holds [nx*ny*nz] values; a count of [-1] is a wildcard
    of [numpy.reshape], and the vector may then have another length. *)
Theorem plot_3d_scalars (self : PGrav) (values : vector) (grid : Grid3d) :
  plot_3d self values = Ok grid ->
  scalars grid = map (fun v => (v * milli)%float) values /\
  (forall p m, nth_error values p = Some m ->
     nth_error (scalars grid) p = Some (m * milli)%float) /\
  dimensions grid = (_nx self + 1, _ny self + 1, _nz self + 1)%Z /\
  x_coordinates grid <> [] /\ y_coordinates grid <> [] /\
  z_coordinates grid <> [] /\
  ((0 <= _nx self)%Z -> (0 <= _ny self)%Z -> (0 <= _nz self)%Z ->
   Z.of_nat (length values) = (_nx self * _ny self * _nz self)%Z).
Proof.
  intros H. unfold plot_3d in H.
  apply bind_Ok_inv in H as (ex & _ & H).
  apply bind_Ok_inv in H as (ey & _ & H).
  apply bind_Ok_inv in H as (ez & _ & H).
  apply bind_Ok_inv in H as (xs & _ & H).
  apply bind_Ok_inv in H as (ys & _ & H).
  apply bind_Ok_inv in H as (zs & _ & H).
  apply bind_Ok_inv in H as (shaped & Hs & H).
  apply bind_Ok_inv in H as (x0 & Hx0 & H).
  apply bind_Ok_inv in H as (x9 & _ & H).
  apply bind_Ok_inv in H as (y0 & Hy0 & H).
  apply bind_Ok_inv in H as (y9 & _ & H).
  apply bind_Ok_inv in H as (z0 & Hz0 & H).
  apply bind_Ok_inv in H as (z9 & _ & H).
  apply bind_Ok_inv in H as (hi & _ & H).
  apply bind_Ok_inv in H as (lo & _ & H).
  inversion H; subst grid; clear H. cbn [scalars dimensions
    x_coordinates y_coordinates z_coordinates].
  pose proof (reshape3_flat (fun v => (v * milli)%float) _ _ _ _ _ Hs)
    as Hsc.
  split; [exact Hsc|].
  split; [intros p m Hm; now rewrite Hsc, nth_error_map, Hm|].
  split; [reflexivity|].
  split; [destruct xs; [discriminate Hx0 | discriminate]|].
  split; [destruct ys; [discriminate Hy0 | discriminate]|].
  split; [destruct zs; [discriminate Hz0 | discriminate]|].
  intros Px Py Pz.
  rewrite <- (Z2Nat.id (_nx self)), <- (Z2Nat.id (_ny self)),
    <- (Z2Nat.id (_nz self)) in Hs by assumption.
  apply reshape3_Ok in Hs as [Hlen _]. rewrite Hlen.
  rewrite !Nat2Z.inj_mul, !Z2Nat.id by assumption. ring.
Qed.

(** The wildcard at work: with [nx = -1] five values are accepted by a
    grid declared with [ny = nz = 1]. *)
Example plot_3d_wildcard :
  exists grid,
    plot_mean3d (gz_only 0x1.999999999999ap-4 1 0 1 0 1 (-1) 1 1 one_obs)
      [1; 2; 3; 4; 5]%float = Ok grid /\
    length (scalars grid) = 5 /\ dimensions grid = (0, 2, 2)%Z.
Proof.
  eexists. split; [vm_compute; reflexivity|]. split; reflexivity.
Qed.

(** An exception of the cell-size divisions is the exception of the
    method. *)
Lemma cell_sizes_raise (A : Type) (self : PGrav)
  (k : float -> float -> float -> result A) (e : exn) :
  cell_sizes self = Raise e ->
  (ex <- py_div_int (_mod_x2 self - _mod_x1 self)%float (_nx self) ;;
   ey <- py_div_int (_mod_y2 self - _mod_y1 self)%float (_ny self) ;;
   ez <- py_div_int (_mod_z2 self - _mod_z1 self)%float (_nz self) ;;
   k ex ey ez) = Raise e.
Proof.
  unfold cell_sizes.
  destruct (py_div_int (_mod_x2 self - _mod_x1 self) (_nx self))
    as [ex|ex]; cbn [bind]; [|intros H; inversion H; reflexivity].
  destruct (py_div_int (_mod_y2 self - _mod_y1 self) (_ny self))
    as [ey|ey]; cbn [bind]; [|intros H; inversion H; reflexivity].
  destruct (py_div_int (_mod_z2 self - _mod_z1 self) (_nz self))
    as [ez|ez]; cbn [bind]; [|intros H; inversion H; reflexivity].
  intros H. discriminate H.
Qed.

(** With a zero count the divisions raise: [ZeroDivisionError] at the
    zero count, unless the conversion of a count before it overflows. *)
Lemma cell_sizes_zero_count (self : PGrav) :
  (_nx self = 0 \/ _ny self = 0 \/ _nz self = 0)%Z ->
  exists e,
    cell_sizes self = Raise e /\
    (e = ZeroDivisionError \/ e = OverflowError) /\
    (_nx self = 0%Z -> e = ZeroDivisionError) /\
    (forall fx fy, float_of_Z (_nx self) = Ok fx ->
       float_of_Z (_ny self) = Ok fy -> e = ZeroDivisionError).
Proof.
  intros Hz. unfold cell_sizes.
  destruct (py_div_int (_mod_x2 self - _mod_x1 self) (_nx self))
    as [ex|e] eqn:Ex; cbn [bind].
  - assert (Nx : _nx self <> 0%Z).
    { intros E. rewrite E, py_div_by_zero in Ex. discriminate Ex. }
    destruct (py_div_int (_mod_y2 self - _mod_y1 self) (_ny self))
      as [ey|e] eqn:Ey; cbn [bind].
    + assert (Ny : _ny self <> 0%Z).
      { intros E. rewrite E, py_div_by_zero in Ey. discriminate Ey. }
      assert (Nz : _nz self = 0%Z) by tauto.
      rewrite Nz, py_div_by_zero. cbn [bind].
      exists ZeroDivisionError. repeat split; auto.
    + exists e. split; [reflexivity|].
      apply py_div_int_raises in Ey as [[-> Ho] | [-> _]].
      * split; [now right|]. split; [contradiction|].
        intros fx fy _ Hy. congruence.
      * repeat split; auto.
  - exists e. split; [reflexivity|].
    apply py_div_int_raises in Ex as [[-> Ho] | [-> _]].
    + split; [now right|]. split.
      * intros E. rewrite E, float_of_Z_0 in Ho. discriminate Ho.
      * intros fx fy Hx _. congruence.
    + repeat split; auto.
Qed.

(** X12. With a zero cell count along any axis, [plot_mean], [plot_std],
    [plot_mean3d] and [plot_std3d] raise in the cell-size divisions,
    before anything is drawn and whatever vector they are given, and all
    four raise the same exception: the [ZeroDivisionError] of the zero
    count - always so when [nx] is zero or when [nx] and [ny] can be
    converted to floats - or else the [OverflowError] of a count before
    it that is too large for a float. *)
Theorem plots_raise_on_zero_count (self : PGrav) (values : vector) :
  (_nx self = 0 \/ _ny self = 0 \/ _nz self = 0)%Z ->
  exists e,
    plot_mean self values = Raise e /\
    plot_std self values = Raise e /\
    plot_mean3d self values = Raise e /\
    plot_std3d self values = Raise e /\
    (e = ZeroDivisionError \/ e = OverflowError) /\
    (_nx self = 0%Z -> e = ZeroDivisionError) /\
    (forall fx fy, float_of_Z (_nx self) = Ok fx ->
       float_of_Z (_ny self) = Ok fy -> e = ZeroDivisionError).
Proof.
  intros Hz.
  destruct (cell_sizes_zero_count self Hz) as (e & He & Hk & Hx & Hxy).
  exists e. unfold plot_mean, plot_std, plot_mean3d, plot_std3d.
  split; [exact (cell_sizes_raise _ self _ e He)|].
  split; [exact (cell_sizes_raise _ self _ e He)|].
  split; [exact (cell_sizes_raise _ self _ e He)|].
  split; [exact (cell_sizes_raise _ self _ e He)|].
  split; [exact Hk|]. split; [exact Hx | exact Hxy].
Qed.

Lemma plots_raise_on_zero_count_witness :
  plot_mean (gz_only 0 1 0 1 0 1 1 0 1 one_obs) one_to_eight
    = Raise ZeroDivisionError /\
  plot_std (gz_only 0 1 0 1 0 1 1 0 1 one_obs) one_to_eight
    = Raise ZeroDivisionError /\
  plot_mean3d (gz_only 0 1 0 1 0 1 1 0 1 one_obs) one_to_eight
    = Raise ZeroDivisionError /\
  plot_std3d (gz_only 0 1 0 1 0 1 1 0 1 one_obs) one_to_eight
    = Raise ZeroDivisionError.
Proof.
  destruct (plots_raise_on_zero_count (gz_only 0 1 0 1 0 1 1 0 1 one_obs)
              one_to_eight (or_intror (or_introl eq_refl)))
    as (e & H1 & H2 & H3 & H4 & _ & _ & Hxy).
  rewrite (Hxy 1%float 0%float eq_refl eq_refl) in H1, H2, H3, H4.
  repeat split; assumption.
Defined.

(** ... and the count too large for a float comes first. *)
Example plots_overflow_before_zero_division :
  plot_mean (gz_only 0 1 0 1 0 1 (10 ^ 400) 0 1 one_obs) one_to_eight
    = Raise OverflowError /\
  plot_mean3d (gz_only 0 1 0 1 0 1 (10 ^ 400) 0 1 one_obs) one_to_eight
    = Raise OverflowError.
Proof. split; vm_compute; reflexivity. Qed.

Lemma sensibility_matrix_shape_witness :
  exists S g,
    _build_sensibility y1_kernel cube_222 = Ok S /\
    prisms cube_222 = Ok g /\
    length S = total len cube_222 /\ 0 < total len cube_222 /\
    (forall row, In row S ->
       length row =
       length (prism_zs g) * (length (prism_ys g) * length (prism_xs g))).
Proof.
  assert (H : _build_sensibility y1_kernel cube_222 =
              Ok [[0; 0; 1; 1; 0; 0; 1; 1]]%float) by reflexivity.
  destruct (sensibility_matrix_shape y1_kernel cube_222 _ H)
    as (g & Hg & Hl & Hp & Hrow & _).
  exists [[0; 0; 1; 1; 0; 0; 1; 1]]%float, g. auto.
Defined.

Lemma sensibility_matrix_entry_witness :
  exists ch row,
    channel cube_222 Gz = Some ch /\ truth ch = true /\ 0 < len ch /\
    nth_error [[0; 0; 1; 1; 0; 0; 1; 1]]%float 0 = Some row /\
    nth_error row (index 2 2 1 1 0) = Some 1%float.
Proof.
  exact (sensibility_matrix_entry y1_kernel cube_222
           [[0; 0; 1; 1; 0; 0; 1; 1]]%float
           {| dx := 1; dy := 1; dz := 1;
              prism_xs := [0; 1]%float; prism_ys := [0; 1]%float;
              prism_zs := [0; 1]%float |}
           0 Gz 0 1 1 0 1%float 1%float 0%float
           eq_refl eq_refl eq_refl eq_refl eq_refl eq_refl).
Defined.

Lemma build_sensibility_outcome_witness :
  exists g,
    prisms cube_222 = Ok g /\
    _build_sensibility y1_kernel cube_222 =
    Ok (flat_map (rows_of y1_kernel g) (present cube_222)).
Proof.
  eexists. split; [vm_compute; reflexivity|].
  exact (build_sensibility_outcome y1_kernel cube_222 _ eq_refl).
Defined.

Lemma first_deriv_row_order_witness :
  exists D,
    _build_first_deriv cube_222 = Ok D /\
    nth_error D (1 * (2 * (2 - 1)) + 1 * (2 - 1) + 0) =
      Some (unit_row (2 * 2 * 2) (index 2 2 0 1 1) (index 2 2 (0 + 1) 1 1)).
Proof.
  destruct (first_deriv_row_order cube_222 2 2 2
              eq_refl eq_refl eq_refl
              Nat.lt_0_2 Nat.lt_0_2 Nat.lt_0_2)
    as (D & HD & Hx & _).
  exists D. split; [exact HD|]. apply Hx; lia.
Defined.

Lemma first_deriv_rows_are_distinct_witness :
  exists D, _build_first_deriv cube_222 = Ok D /\ NoDup D.
Proof.
  exact (first_deriv_rows_are_distinct cube_222 2 2 2
           eq_refl eq_refl eq_refl Nat.lt_0_2 Nat.lt_0_2 Nat.lt_0_2).
Defined.

Lemma depth_weights_on_return_witness :
  exists W,
    depth_weights small_pow cube_222 1 1 = Ok W /\
    length W = 8 /\ (forall row, In row W -> length row = 8).
Proof.
  destruct (depth_weights small_pow cube_222 1 1) as [W|e] eqn:E;
    [|vm_compute in E; discriminate E].
  destruct (depth_weights_on_return small_pow cube_222 1 1 W E)
    as (ez & depths & wt & mx & _ & _ & _ & _ & _ & Hl & Hrow & _).
  exists W. split; [reflexivity|]. split; [exact Hl | exact Hrow].
Defined.

Lemma depth_weights_raises_on_empty_grid_witness :
  exists e,
    depth_weights small_pow (gz_only 0 1 0 1 0 1 0 1 1 one_obs) 1 1
    = Raise e.
Proof.
  apply depth_weights_raises_on_empty_grid. vm_compute. discriminate.
Defined.

Lemma plot_adjustment_ignores_gz_rows_witness :
  exists figs,
    plot_adjustment gz_and_gxx [10; 20]%float (1, 1)%Z = Ok figs /\
    plotted figs = [(Gxx, 10%float)] /\
    nth_error (observations gz_and_gxx) (gz_rows gz_and_gxx + 0)
      = Some (Gxx, 0) /\
    nth_error (observations gz_and_gxx) 0 = Some (Gz, 0).
Proof.
  destruct (plot_adjustment gz_and_gxx [10; 20]%float (1, 1)%Z)
    as [figs|e] eqn:E; [|vm_compute in E; discriminate E].
  destruct (plot_adjustment_ignores_gz_rows gz_and_gxx _ _ figs E)
    as (_ & HP & Hr).
  exists figs. split; [reflexivity|]. split; [exact HP|].
  split; reflexivity.
Defined.

Lemma plot_layers_cells_witness :
  exists figs,
    plot_mean cube_222 one_to_eight = Ok figs /\
    length one_to_eight = 2 * 2 * 2 /\ length figs = 2.
Proof.
  destruct (plot_mean cube_222 one_to_eight) as [figs|e] eqn:E;
    [|vm_compute in E; discriminate E].
  destruct (plot_layers_cells true cube_222 one_to_eight 2 2 2 figs
              eq_refl eq_refl eq_refl Nat.lt_0_2 Nat.lt_0_2 Nat.lt_0_2 E)
    as (Hl & Hf & _).
  exists figs. split; [reflexivity|]. split; [exact Hl | exact Hf].
Defined.

Lemma plot_3d_scalars_witness :
  exists grid,
    plot_mean3d cube_222 one_to_eight = Ok grid /\
    scalars grid = map (fun v => (v * milli)%float) one_to_eight /\
    dimensions grid = (3, 3, 3)%Z.
Proof.
  destruct (plot_mean3d cube_222 one_to_eight) as [grid|e] eqn:E;
    [|vm_compute in E; discriminate E].
  destruct (plot_3d_scalars cube_222 one_to_eight grid E)
    as (Hs & _ & Hd & _).
  exists grid. split; [reflexivity|]. split; [exact Hs | exact Hd].
Defined.
